(** * Bubbles-AI-GPT static server: the request-admission pipeline

    A shallow embedding of [server.py] (class [SecurityHTTPRequestHandler])
    and the properties of its rate limiter, path filter, header policy and
    method handlers.

    Conventions of the model.
    - Python [str] values are Rocq strings over 8-bit characters.  The model
      is exact on ASCII text; where Python would decode percent-escaped
      bytes above 0x7f as UTF-8, the model keeps the bytes.
    - [time.time()] is an input of every request, an integer number of
      clock ticks ([Z]); only order and subtraction of timestamps are used.
    - The two module-level objects [request_counts] (a dict) and
      [blocked_ips] (a set) form the server state, a [gmap] and a [gset].
    - The handler writes to the outside world (console lines, the HTTP
      response, the shutdown thread); these writes are collected in order
      as a list of actions.
    - A Python exception that leaves a handler is a [Raise] result; the
      state changes and actions performed before it are kept. *)

From stdpp Require Import gmap strings list.
From Stdlib Require Import ZArith NArith Ascii String Lia.

Local Open Scope string_scope.
Local Open Scope Z_scope.

(** ** Python values and library functions used by the handler *)

Module Py.

(** The exception classes that occur in the handler. *)
Inductive exn : Type :=
| ValueError
| OSError
| TypeError.

(** The outcome of evaluating a Python expression or statement. *)
Inductive result (A : Type) : Type :=
| Ok (a : A)
| Raise (e : exn).
Arguments Ok {A} a.
Arguments Raise {A} e.

Definition rbind {A B : Type} (x : result A) (f : A → result B) : result B :=
  match x with
  | Ok a => f a
  | Raise e => Raise e
  end.

Definition rmap {A B : Type} (f : A → B) (x : result A) : result B :=
  rbind x (λ a, Ok (f a)).

(** [c in s] for a one-character [c]. *)
Fixpoint contains (c : ascii) (s : string) : bool :=
  match s with
  | EmptyString => false
  | String a s' => if Ascii.eqb a c then true else contains c s'
  end.

(** [s.lstrip(chars)], the set [chars] given as a predicate. *)
Fixpoint lstrip_chars (p : ascii → bool) (s : string) : string :=
  match s with
  | EmptyString => EmptyString
  | String a s' => if p a then lstrip_chars p s' else s
  end.

(** [s.lstrip('/')] and the like. *)
Definition lstrip (c : ascii) (s : string) : string :=
  lstrip_chars (Ascii.eqb c) s.

(** [s.split(sep)] for a one-character separator: never empty. *)
Fixpoint split (sep : ascii) (s : string) : list string :=
  match s with
  | EmptyString => [EmptyString]
  | String a s' =>
      if Ascii.eqb a sep then EmptyString :: split sep s'
      else match split sep s' with
           | [] => [String a EmptyString]
           | x :: xs => String a x :: xs
           end
  end.

(** [s[s.find(c):]] when [c] occurs in [s], [None] otherwise. *)
Fixpoint from_first (p : ascii → bool) (s : string) : option string :=
  match s with
  | EmptyString => None
  | String a s' => if p a then Some s else from_first p s'
  end.

(** [s.replace(c, "")] for each character [c] selected by [p]. *)
Fixpoint remove_chars (p : ascii → bool) (s : string) : string :=
  match s with
  | EmptyString => EmptyString
  | String a s' => if p a then remove_chars p s' else String a (remove_chars p s')
  end.

(** [s.endswith(suffix)]. *)
Fixpoint endswith (s suffix : string) : bool :=
  if String.eqb s suffix then true
  else match s with
       | EmptyString => false
       | String _ s' => endswith s' suffix
       end.

(** [s.endswith((s1, ..., sn))]. *)
Definition endswith_any (s : string) (suffixes : list string) : bool :=
  existsb (endswith s) suffixes.

Definition is_upper (a : ascii) : bool :=
  let n := N_of_ascii a in ((65 <=? n) && (n <=? 90))%N.

Definition is_lower (a : ascii) : bool :=
  let n := N_of_ascii a in ((97 <=? n) && (n <=? 122))%N.

Definition is_digit (a : ascii) : bool :=
  let n := N_of_ascii a in ((48 <=? n) && (n <=? 57))%N.

Definition lower_ascii (a : ascii) : ascii :=
  if is_upper a then ascii_of_N (N_of_ascii a + 32) else a.

(** [s.lower()] on ASCII letters. *)
Fixpoint lower (s : string) : string :=
  match s with
  | EmptyString => EmptyString
  | String a s' => String (lower_ascii a) (lower s')
  end.

(** The decimal digit of a number below ten. *)
Definition digit_char (d : N) : ascii :=
  match d with
  | 0 => "0" | 1 => "1" | 2 => "2" | 3 => "3" | 4 => "4"
  | 5 => "5" | 6 => "6" | 7 => "7" | 8 => "8" | _ => "9"
  end%N%char.

Fixpoint dec_digits (fuel : nat) (n : N) (acc : string) : string :=
  let acc' := String (digit_char (n mod 10)) acc in
  match fuel with
  | O => acc'
  | S fuel' => if (n / 10 =? 0)%N then acc' else dec_digits fuel' (n / 10)%N acc'
  end.

(** [str(n)] for a natural number, as an f-string renders it. *)
Definition dec (n : N) : string :=
  dec_digits (N.size_nat n) n EmptyString.

(** *** [format % ()]: old-style formatting with an empty argument tuple *)

Definition is_flag (a : ascii) : bool :=
  existsb (Ascii.eqb a) ["-"; "+"; " "; "#"; "0"]%char.

Definition is_length_modifier (a : ascii) : bool :=
  existsb (Ascii.eqb a) ["h"; "l"; "L"]%char.

(** The exception raised by a conversion specifier that is not [%%]; [s]
    is the text after the percent sign.  With no arguments to consume,
    a complete specifier raises [TypeError] (not enough arguments, or a
    mapping key without a mapping) and a truncated one [ValueError]. *)
Definition conversion_error (s : string) : exn :=
  match s with
  | EmptyString => ValueError
  | String "("%char _ => TypeError
  | _ =>
      match lstrip_chars is_flag s with
      | String "*"%char _ => TypeError
      | s1 =>
          let s2 := lstrip_chars is_digit s1 in
          let after_precision :=
            match s2 with
            | String "."%char (String "*"%char _) => None
            | String "."%char r => Some (lstrip_chars is_digit r)
            | _ => Some s2
            end in
          match after_precision with
          | None => TypeError
          | Some s3 =>
              let s4 := match s3 with
                        | String c r => if is_length_modifier c then r else s3
                        | EmptyString => EmptyString
                        end in
              match s4 with
              | EmptyString => ValueError
              | _ => TypeError
              end
          end
      end
  end.

(** [format % ()]. *)
Fixpoint format_noargs (s : string) : result string :=
  match s with
  | EmptyString => Ok EmptyString
  | String a s' =>
      if Ascii.eqb a "%" then
        match s' with
        | String "%"%char r => rmap (String "%") (format_noargs r)
        | _ => Raise (conversion_error s')
        end
      else rmap (String a) (format_noargs s')
  end.

(** *** [int(s)] for a decimal string *)

Definition is_space (a : ascii) : bool :=
  let n := N_of_ascii a in ((n =? 32) || ((9 <=? n) && (n <=? 13)))%N.

Definition strip_space (s : string) : string :=
  String.rev (lstrip_chars is_space (String.rev (lstrip_chars is_space s))).

Definition digit_value (a : ascii) : Z := Z.of_N (N_of_ascii a) - 48.

(** Digits with single underscores between them. *)
Fixpoint digits_value (s : string) (acc : Z) (after_digit : bool) : option Z :=
  match s with
  | EmptyString => if after_digit then Some acc else None
  | String a r =>
      if is_digit a then digits_value r (10 * acc + digit_value a) true
      else if Ascii.eqb a "_" && after_digit then digits_value r acc false
      else None
  end.

Fixpoint count_digits (s : string) : nat :=
  match s with
  | EmptyString => O
  | String a r => if is_digit a then S (count_digits r) else count_digits r
  end.

(** The default of [sys.get_int_max_str_digits()]. *)
Definition INT_MAX_STR_DIGITS : nat := 4300.

(** [int(s)]: [None] stands for [ValueError]. *)
Definition int (s : string) : option Z :=
  let body := strip_space s in
  let '(negative, ds) :=
    match body with
    | String "-"%char r => (true, r)
    | String "+"%char r => (false, r)
    | _ => (false, body)
    end in
  if (INT_MAX_STR_DIGITS <? count_digits ds)%nat then None
  else option_map (λ v, if negative : bool then - v else v) (digits_value ds 0 false).

(** *** [urllib.parse] *)

Definition hex_value (a : ascii) : option N :=
  let n := N_of_ascii a in
  if is_digit a then Some (n - 48)%N
  else if ((97 <=? n) && (n <=? 102))%N then Some (n - 87)%N
  else if ((65 <=? n) && (n <=? 70))%N then Some (n - 55)%N
  else None.

Definition hex_pair (a b : ascii) : option ascii :=
  match hex_value a, hex_value b with
  | Some x, Some y => Some (ascii_of_N (16 * x + y))
  | _, _ => None
  end.

(** [urllib.parse.unquote(s)]: every [%xy] with two hexadecimal digits
    becomes the character of that code, anything else is kept. *)
Fixpoint unquote (s : string) : string :=
  match s with
  | EmptyString => EmptyString
  | String c s' =>
      if Ascii.eqb c "%" then
        match s' with
        | String a (String b rest) =>
            match hex_pair a b with
            | Some ch => String ch (unquote rest)
            | None => String c (unquote s')
            end
        | _ => String c (unquote s')
        end
      else String c (unquote s')
  end.

(** *** [urllib.parse.urlparse(url).path] *)

Definition is_c0_or_space (a : ascii) : bool := (N_of_ascii a <=? 32)%N.

Definition is_tab_or_newline (a : ascii) : bool :=
  let n := N_of_ascii a in ((n =? 9) || (n =? 10) || (n =? 13))%N.

Definition is_alpha (a : ascii) : bool := is_lower a || is_upper a.

Definition is_scheme_char (a : ascii) : bool :=
  is_alpha a || is_digit a || existsb (Ascii.eqb a) ["+"; "-"; "."]%char.

Fixpoint all_chars (p : ascii → bool) (s : string) : bool :=
  match s with
  | EmptyString => true
  | String a s' => p a && all_chars p s'
  end.

(** The text before the first character selected by [p], or all of [s]. *)
Fixpoint take_until (p : ascii → bool) (s : string) : string :=
  match s with
  | EmptyString => EmptyString
  | String a s' => if p a then EmptyString else String a (take_until p s')
  end.

Definition uses_params : list string :=
  [""; "ftp"; "hdl"; "prospero"; "http"; "imap"; "https"; "shttp"; "rtsp";
   "rtspu"; "sip"; "sips"; "mms"; "sftp"; "tel"].

(** The scheme split of [urlsplit]: [(scheme, rest)]. *)
Definition split_scheme (url : string) : string * string :=
  match url, from_first (Ascii.eqb ":") url with
  | String a _, Some (String _ rest) =>
      let prefix := take_until (Ascii.eqb ":") url in
      if is_alpha a && all_chars is_scheme_char prefix
      then (lower prefix, rest) else (EmptyString, url)
  | _, _ => (EmptyString, url)
  end.

Definition is_netloc_delim (a : ascii) : bool :=
  existsb (Ascii.eqb a) ["/"; "?"; "#"]%char.

(** The authority split of [urlsplit]: [(netloc, rest)] when the text
    starts with two slashes.  An authority with one kind of square bracket
    only raises [ValueError]; the further validation of a bracketed or a
    non-ASCII authority is left out. *)
Definition split_netloc (url : string) : result (string * string) :=
  match url with
  | String "/"%char (String "/"%char r) =>
      let netloc := take_until is_netloc_delim r in
      let rest := default EmptyString (from_first is_netloc_delim r) in
      if xorb (contains "[" netloc) (contains "]" netloc) then Raise ValueError
      else Ok (netloc, rest)
  | _ => Ok (EmptyString, url)
  end.

(** [_splitparams(url)[0]]: cut at the first semicolon of the last
    segment. *)
Fixpoint splitparams (s : string) : string :=
  match s with
  | EmptyString => EmptyString
  | String a s' =>
      if Ascii.eqb a ";" && negb (contains "/" s') then EmptyString
      else String a (splitparams s')
  end.

(** [urllib.parse.urlparse(url).path]. *)
Definition urlparse_path (url : string) : result string :=
  let url := remove_chars is_tab_or_newline (lstrip_chars is_c0_or_space url) in
  let '(scheme, url) := split_scheme url in
  rbind (split_netloc url) (λ '(_, url),
    let url := take_until (Ascii.eqb "#") url in
    let url := take_until (Ascii.eqb "?") url in
    Ok (if bool_decide (scheme ∈ uses_params) then splitparams url else url)).

(** *** [pathlib] *)

(** [Path(s).name]: the last component, empty and [.] components
    dropped. *)
Definition path_name (s : string) : string :=
  default EmptyString
    (last (List.filter (λ x, negb (String.eqb x "" || String.eqb x ".")) (split "/" s))).

(** The text from the last dot of [s] on, if [s] has a dot. *)
Fixpoint from_last_dot (s : string) : option string :=
  match s with
  | EmptyString => None
  | String a s' =>
      match from_last_dot s' with
      | Some r => Some r
      | None => if Ascii.eqb a "." then Some s else None
      end
  end.

(** [Path(s).suffix]: the text from the last dot of the name on, unless
    that dot is the first or the last character of the name. *)
Definition path_suffix (s : string) : string :=
  match path_name s with
  | EmptyString => EmptyString
  | String _ rest =>
      match from_last_dot rest with
      | Some r => if String.eqb r "." then EmptyString else r
      | None => EmptyString
      end
  end.

End Py.

Import Py.

(** ** Configuration constants of [server.py] *)

Definition PORT : Z := 8000.
Definition MAX_CONTENT_LENGTH : Z := 10 * 1024 * 1024.
Definition RATE_LIMIT_WINDOW : Z := 60.
Definition RATE_LIMIT_MAX_REQUESTS : nat := 100.

Definition ALLOWED_EXTENSIONS : gset string :=
  {[ ".html"; ".js"; ".css"; ".json"; ".txt"; ".ico"; ".svg"; ".png"; ".jpg";
     ".jpeg"; ".gif"; ".woff"; ".woff2"; ".ttf"; ".eot" ]}.

Definition BLOCKED_PATHS : gset string :=
  {[ ".."; ".env"; ".git"; "__pycache__"; ".vscode"; "node_modules" ]}.

(** ** Data model *)

(** [self.client_address[0]]: the server listens on an [AF_INET] socket,
    so the peer address is an IPv4 address.  The model keys the rate-limit
    state on the four octets and renders the dotted text where the code
    interpolates it. *)
Definition ipv4 : Type := N * N * N * N.

Definition ip_str (ip : ipv4) : string :=
  let '(a, b, c, d) := ip in
  dec a +:+ "." +:+ dec b +:+ "." +:+ dec c +:+ "." +:+ dec d.

(** The module-level rate limiting storage. *)
Record server_state : Type := {
  request_counts : gmap ipv4 (list Z);
  blocked_ips : gset ipv4
}.

Definition initial_state : server_state :=
  {| request_counts := ∅; blocked_ips := ∅ |}.

(** What a handler instance reads of its request: the peer address, the
    raw request target [self.path], the two headers the code looks at
    ([self.headers.get] gives [None] for an absent header) and the value
    [time.time()] returns while the request is handled. *)
Record request : Type := {
  client_address : ipv4;
  path : string;
  content_length_header : option string;
  user_agent_header : option string;
  now : Z
}.

(** A filesystem probe ([Path.exists], [Path.is_file]) answers or fails
    with an operating-system error or with a rejected path. *)
Inductive fs_error : Type :=
| FsOSError
| FsValueError.

Inductive probe : Type :=
| Answer (b : bool)
| Fails (e : fs_error).

Definition probe_result (p : probe) : result bool :=
  match p with
  | Answer b => Ok b
  | Fails FsOSError => Raise OSError
  | Fails FsValueError => Raise ValueError
  end.

(** What the inherited [SimpleHTTPRequestHandler.do_GET] does with a
    request target: it answers through [send_response], [send_header],
    [end_headers] and a body, or through [self.send_error]. *)
Inductive reply : Type :=
| Success (code : N) (headers : list (string * string)) (body : string)
| Failure (code : N) (message : string).

(** The collaborators of the handler: the working directory and the
    inherited file server. *)
Record environment : Type := {
  path_exists : string → probe;
  path_is_file : string → probe;
  file_server : string → reply
}.

(** What a handler does to the outside world.  [Print] is the line
    [log_message] prints (without its timestamp); [Response] is a status
    line with the headers this class and the file server pass to
    [send_header] before the header block is flushed; [Write] is
    [self.wfile.write]; the error page the inherited [send_error] writes
    belongs to its [Response]. *)
Inductive action : Type :=
| Print (client_ip : string) (message : string)
| Response (code : N) (message : option string) (headers : list (string * string))
| Write (data : string)
| StartShutdownThread.

(** ** The handler monad: shared state, output and exceptions *)

Definition M (A : Type) : Type :=
  server_state → server_state * list action * result A.

Definition ret {A : Type} (a : A) : M A := λ s, (s, [], Ok a).

Definition bind {A B : Type} (m : M A) (f : A → M B) : M B := λ s,
  match m s with
  | (s1, out1, Ok a) =>
      let '(s2, out2, r) := f a s1 in (s2, (out1 ++ out2)%list, r)
  | (s1, out1, Raise e) => (s1, out1, Raise e)
  end.

Definition lift {A : Type} (r : result A) : M A := λ s, (s, [], r).

Definition emit (a : action) : M unit := λ s, (s, [a], Ok tt).

Definition get_state : M server_state := λ s, (s, [], Ok s).

Definition put_state (s' : server_state) : M unit := λ _, (s', [], Ok tt).

(** [try: body except ValueError: handler]. *)
Definition except_ValueError {A : Type} (body handler : M A) : M A := λ s,
  match body s with
  | (s1, out1, Raise ValueError) =>
      let '(s2, out2, r) := handler s1 in (s2, (out1 ++ out2)%list, r)
  | other => other
  end.

#[global] Instance M_ret : MRet M := @ret.
#[global] Instance M_bind : MBind M := λ A B f m, bind m f.
#[global] Instance result_ret : MRet result := @Ok.
#[global] Instance result_bind : MBind result := λ A B f x, rbind x f.

Definition state_of {A : Type} (x : server_state * list action * result A) : server_state :=
  x.1.1.

Definition actions_of {A : Type} (x : server_state * list action * result A) : list action :=
  x.1.2.

Definition result_of {A : Type} (x : server_state * list action * result A) : result A :=
  x.2.

(** ** [SecurityHTTPRequestHandler] *)

Definition security_headers : list (string * string) :=
  [ ("Access-Control-Allow-Origin", "*");
    ("Access-Control-Allow-Methods", "GET, POST, OPTIONS");
    ("Access-Control-Allow-Headers", "Content-Type, Authorization");
    ("Access-Control-Max-Age", "86400");
    ("X-Content-Type-Options", "nosniff");
    ("X-Frame-Options", "DENY");
    ("X-XSS-Protection", "1; mode=block");
    ("Referrer-Policy", "strict-origin-when-cross-origin");
    ("Permissions-Policy", "geolocation=(), microphone=(), camera=()");
    ("Content-Security-Policy",
     "default-src 'self'; " +:+
     "script-src 'self' 'unsafe-inline' https://js.puter.com; " +:+
     "style-src 'self' 'unsafe-inline'; " +:+
     "connect-src 'self' https: wss:; " +:+
     "img-src 'self' data: https:; " +:+
     "font-src 'self' data:; " +:+
     "object-src 'none'; " +:+
     "base-uri 'self'; " +:+
     "form-action 'self'") ].

Definition CACHEABLE_SUFFIXES : list string :=
  [".css"; ".js"; ".png"; ".jpg"; ".ico"; ".woff"; ".woff2"].

(** The value of the [Cache-Control] header [end_headers] sends for the
    request target [self.path]. *)
Definition cache_control (self_path : string) : string :=
  if endswith_any self_path CACHEABLE_SUFFIXES
  then "public, max-age=3600"
  else "no-cache, no-store, must-revalidate".

(** [end_headers]: the headers the override passes to [send_header]
    before it calls the inherited [end_headers]. *)
Definition end_headers (self_path : string) : list (string * string) :=
  (security_headers ++ [("Cache-Control", cache_control self_path)])%list.

Section Handler.

Context (env : environment) (self : request).

(** [log_message(format)] as this class calls it, with no further
    arguments: [format % ()] is evaluated, then the line is printed. *)
Definition log_message (format : string) : M unit :=
  line ← lift (format_noargs format);
  emit (Print (ip_str (client_address self)) line).

(** [send_error(code, message)]. *)
Definition send_error (code : N) (message : option string) : M unit :=
  (if (400 <=? code)%N
   then log_message ("ERROR " +:+ dec code +:+ ": " +:+
                     match message with
                     | Some (String a m) => String a m
                     | _ => "Unknown error"
                     end)
   else mret tt);;
  let message :=
    if (code =? 404)%N then Some "Not Found"
    else if (code =? 403)%N then Some "Forbidden"
    else if (code =? 500)%N then Some "Internal Server Error"
    else message in
  emit (Response code message (end_headers (path self))).

(** The body of the [try] block of [is_safe_path]. *)
Definition is_safe_path_try (path : string) : result bool :=
  if bool_decide (path ∈ ["/"; ""]) then Ok true
  else
    let clean_path := lstrip "/" path in
    if String.eqb clean_path "" then Ok true
    else
      let path_parts := split "/" clean_path in
      if bool_decide (set_Exists (λ blocked, blocked ∈ path_parts) BLOCKED_PATHS)
      then Ok false
      else
        found ← probe_result (path_exists env clean_path);
        regular ← (if found : bool then probe_result (path_is_file env clean_path)
                   else Ok false);
        let extension := lower (path_suffix clean_path) in
        if regular && negb (String.eqb extension "")
           && negb (bool_decide (extension ∈ ALLOWED_EXTENSIONS))
        then Ok false
        else if bool_decide (".." ∈ path_parts) then Ok false
        else Ok true.

(** [is_safe_path(path)]: the [try] block under
    [except (ValueError, OSError): return False]. *)
Definition is_safe_path (path : string) : result bool :=
  match is_safe_path_try path with
  | Raise ValueError | Raise OSError => Ok false
  | other => other
  end.

(** [urllib.parse.unquote(urllib.parse.urlparse(self.path).path)], the
    [clean_path] of [do_GET]. *)
Definition decoded_path : result string :=
  parsed_path ← urlparse_path (path self);
  mret (unquote parsed_path).

(** [sanitize_headers()]. *)
Definition sanitize_headers : M bool :=
  let content_length := content_length_header self in
  returned ←
    match content_length with
    | Some (String a cl) =>
        except_ValueError
          (length ← lift (match int (String a cl) with
                          | Some n => Ok n
                          | None => Raise ValueError
                          end);
           if (MAX_CONTENT_LENGTH <? length)%Z
           then send_error 413 (Some "Request entity too large");; mret (Some false)
           else mret None)
          (send_error 400 (Some "Invalid Content-Length");; mret (Some false))
    | _ => mret None
    end;
  match returned with
  | Some b => mret b
  | None =>
      let user_agent := default "" (user_agent_header self) in
      if (500 <? String.length user_agent)%nat
      then send_error 400 (Some "Invalid User-Agent");; mret false
      else mret true
  end.

(** [rate_limit_check()]. *)
Definition rate_limit_check : M bool :=
  let client_ip := client_address self in
  let current_time := now self in
  s ← get_state;
  if bool_decide (client_ip ∈ blocked_ips s)
  then send_error 429 (Some "Too Many Requests - IP Blocked");; mret false
  else
    let cutoff_time := current_time - RATE_LIMIT_WINDOW in
    put_state {| request_counts :=
             <[client_ip := List.filter (λ req_time, cutoff_time <? req_time)
                              (default [] (request_counts s !! client_ip))]>
               (request_counts s);
           blocked_ips := blocked_ips s |};;
    s ← get_state;
    (if bool_decide (client_ip ∈ dom (request_counts s)) then mret tt
     else put_state {| request_counts := <[client_ip := []]> (request_counts s);
                 blocked_ips := blocked_ips s |});;
    s ← get_state;
    put_state {| request_counts :=
             alter (λ times, times ++ [current_time])%list client_ip (request_counts s);
           blocked_ips := blocked_ips s |};;
    s ← get_state;
    if (RATE_LIMIT_MAX_REQUESTS <? List.length (default [] (request_counts s !! client_ip)))%nat
    then
      put_state {| request_counts := request_counts s;
             blocked_ips := blocked_ips s ∪ {[client_ip]} |};;
      log_message ("SECURITY: Rate limit exceeded for " +:+ ip_str client_ip
                   +:+ " - IP blocked");;
      send_error 429 (Some "Too Many Requests");;
      mret false
    else mret true.

(** [super().do_GET()]: the inherited file server answers, through the
    overridden [end_headers] and [send_error]. *)
Definition super_do_GET : M unit :=
  match file_server env (path self) with
  | Success code headers body =>
      emit (Response code None (headers ++ end_headers (path self))%list);;
      emit (Write body)
  | Failure code message => send_error code (Some message)
  end.

(** [do_GET()]. *)
Definition do_GET : M unit :=
  admitted ← rate_limit_check;
  if negb admitted then mret tt
  else
    sane ← sanitize_headers;
    if negb sane then mret tt
    else
      clean_path ← lift decoded_path;
      if String.eqb clean_path "/shutdown"
      then
        log_message "Received shutdown request from frontend.";;
        emit (Response 200 None
                (("Content-type", "text/plain") :: end_headers (path self)));;
        emit (Write "Shutting down server...");;
        emit StartShutdownThread
      else
        safe ← lift (is_safe_path clean_path);
        if negb safe
        then
          log_message ("SECURITY: Blocked unsafe path access: " +:+ clean_path);;
          log_message ("DEBUG: Original path: " +:+ path self +:+ ", Clean path: "
                       +:+ clean_path);;
          send_error 403 (Some "Forbidden")
        else
          log_message ("GET " +:+ clean_path);;
          super_do_GET.

(** [do_POST()]. *)
Definition do_POST : M unit :=
  admitted ← rate_limit_check;
  if negb admitted then mret tt
  else
    sane ← sanitize_headers;
    if negb sane then mret tt
    else
      log_message ("POST " +:+ path self);;
      send_error 405 (Some "Method Not Allowed").

(** [do_OPTIONS()]. *)
Definition do_OPTIONS : M unit :=
  admitted ← rate_limit_check;
  if negb admitted then mret tt
  else emit (Response 200 None (end_headers (path self))).

End Handler.

(** The request methods the class handles and their dispatch. *)
Inductive method : Type := GET | POST | OPTIONS.

Definition handle (env : environment) (m : method) (self : request) : M unit :=
  match m with
  | GET => do_GET env self
  | POST => do_POST self
  | OPTIONS => do_OPTIONS self
  end.

(** The state after a sequence of requests handled one after the other;
    a handler that ends in an exception keeps its state changes. *)
Definition run (env : environment) (s : server_state)
    (history : list (method * request)) : server_state :=
  fold_left (λ s '(m, r), state_of (handle env m r s)) history s.

(** ** Notions used to state the properties *)

(** The window [rate_limit_check] stores for the client of [self] when it
    is not blocked: the kept timestamps, then the current time. *)
Definition window_after (self : request) (s : server_state) : list Z :=
  (List.filter (λ req_time, now self - RATE_LIMIT_WINDOW <? req_time)
     (default [] (request_counts s !! client_address self)) ++ [now self])%list.

(** The timestamps of the requests of one client in a history. *)
Definition times_of (ip : ipv4) (history : list (method * request)) : list Z :=
  map (λ x, now x.2) (List.filter (λ x, bool_decide (client_address x.2 = ip)) history).

(** [req_time] lies in the window that ends at [current_time]. *)
Definition in_window (current_time req_time : Z) : bool :=
  (current_time - RATE_LIMIT_WINDOW <? req_time) && (req_time <=? current_time).

(** A computation that leaves the shared state as it found it. *)
Definition preserves_state {A : Type} (m : M A) : Prop :=
  ∀ s, state_of (m s) = s.

(** Every action of the computation satisfies [P]. *)
Definition emits (P : action → Prop) {A : Type} (m : M A) : Prop :=
  ∀ s, Forall P (actions_of (m s)).

(** A response whose header block ends with the headers of
    [end_headers]. *)
Definition carries_policy (self_path : string) (a : action) : Prop :=
  match a with
  | Response _ _ headers => ∃ own, headers = (own ++ end_headers self_path)%list
  | _ => True
  end.

(** The [Content-Length] header is absent, empty, or a decimal number
    not above the limit. *)
Definition content_length_acceptable (self : request) : Prop :=
  match content_length_header self with
  | Some (String a cl) => ∃ n, int (String a cl) = Some n ∧ n ≤ MAX_CONTENT_LENGTH
  | _ => True
  end.

(** ** Example collaborators and requests *)

(** A working directory with four regular files and nothing else; the
    file server finds none of them. *)
Definition example_files : list string :=
  ["config.env"; "server.py"; "style.css"; "logo.png"].

Definition example_env : environment :=
  {| path_exists := λ p, Answer (bool_decide (p ∈ example_files));
     path_is_file := λ p, Answer (bool_decide (p ∈ example_files));
     file_server := λ _, Failure 404 "File not found" |}.

(** A directory whose every probe is refused by the operating system. *)
Definition locked_env : environment :=
  {| path_exists := λ _, Fails FsOSError;
     path_is_file := λ _, Fails FsOSError;
     file_server := λ _, Failure 404 "File not found" |}.

Definition example_request (target : string) (time : Z) : request :=
  {| client_address := (127, 0, 0, 1)%N;
     path := target;
     content_length_header := None;
     user_agent_header := Some "curl/8.0";
     now := time |}.

(** A hundred requests of one client within one second. *)
Definition burst : list (method * request) :=
  replicate 100 (OPTIONS, example_request "/" 1000).

Definition oversized_request : request :=
  {| client_address := (127, 0, 0, 1)%N;
     path := "/";
     content_length_header := Some "20000000";
     user_agent_header := None;
     now := 0 |}.

(** The extension of the requested path as the path filter takes it: the
    suffix of the path component of the request target. *)
Definition requested_extension (target : string) : string :=
  match urlparse_path target with
  | Ok p => path_suffix p
  | Raise _ => ""
  end.

(** The stored window of a client, empty for a client never seen. *)
Definition window_of (s : server_state) (ip : ipv4) : list Z :=
  default [] (request_counts s !! ip).

(** One more request of the example client after the burst. *)
Definition flood : list (method * request) :=
  (burst ++ [(GET, example_request "/" 1000)])%list.

(** The actions that put a status line on the wire. *)
Definition is_response (a : action) : bool :=
  match a with
  | Response _ _ _ => true
  | _ => false
  end.

(** The number of responses among the actions of a handler. *)
Definition response_count (out : list action) : nat :=
  List.length (List.filter is_response out).

(** A computation that sends no response. *)
Definition silent {A : Type} (m : M A) : Prop :=
  ∀ s, response_count (actions_of (m s)) = O.

(** A computation that cannot end in an exception. *)
Definition completes {A : Type} (m : M A) : Prop :=
  ∀ s, ∃ a, result_of (m s) = Ok a.

(** A computation that sends one response when it returns and none when
    it raises. *)
Definition answers_once {A : Type} (m : M A) : Prop :=
  ∀ s, response_count (actions_of (m s)) =
       match result_of (m s) with
       | Ok _ => 1%nat
       | Raise _ => O
       end.

(** A check that returns [True] in silence or [False] after one
    response. *)
Definition answers_unless (m : M bool) : Prop :=
  ∀ s, ∃ b, result_of (m s) = Ok b
            ∧ response_count (actions_of (m s)) = if b then O else 1%nat.

(** An action of a request that is turned away: a console line or an
    error response, never file content or the shutdown thread. *)
Definition refusal (a : action) : Prop :=
  match a with
  | Print _ _ => True
  | Response code _ _ => (400 ≤ code)%N
  | Write _ => False
  | StartShutdownThread => False
  end.

(** A directory with a style sheet that the file server delivers. *)
Definition serving_env : environment :=
  {| path_exists := λ p, Answer (bool_decide (p = "style.css"));
     path_is_file := λ p, Answer (bool_decide (p = "style.css"));
     file_server := λ target,
       if String.eqb target "/style.css"
       then Success 200 [("Content-type", "text/css")] "body { margin: 0 }"
       else Failure 404 "File not found" |}.

(** An action other than the start of the shutdown thread. *)
Definition keeps_running (a : action) : Prop := a ≠ StartShutdownThread.

(** A response whose reason phrase, for the three masked status codes, is
    the fixed public one (or the default of the status line). *)
Definition generic_message (a : action) : Prop :=
  match a with
  | Response code message _ =>
      (code = 404%N → message = None ∨ message = Some "Not Found")
      ∧ (code = 403%N → message = None ∨ message = Some "Forbidden")
      ∧ (code = 500%N → message = None ∨ message = Some "Internal Server Error")
  | _ => True
  end.

(** * Properties *)

(** ** Facts about the library functions *)

Lemma contains_app c a b : contains c (a +:+ b) = contains c a || contains c b.
Proof.
  induction a as [|x a IH]; simpl; [done|].
  destruct (Ascii.eqb x c); [done|apply IH].
Qed.

Lemma digit_char_is_digit d : is_digit (digit_char d) = true.
Proof.
  destruct d as [|p]; [done|].
  do 4 (try destruct p as [p|p|]; try done).
Qed.

Lemma is_digit_not_percent a : is_digit a = true → Ascii.eqb a "%" = false.
Proof.
  destruct (Ascii.eqb_spec a "%") as [->|]; [|done]. by vm_compute.
Qed.

Lemma contains_dec_digits fuel : ∀ n acc,
  contains "%" acc = false → contains "%" (dec_digits fuel n acc) = false.
Proof.
  induction fuel as [|fuel IH]; intros n acc Hacc; simpl.
  - by rewrite is_digit_not_percent by apply digit_char_is_digit.
  - destruct (n / 10 =? 0)%N; simpl.
    + by rewrite is_digit_not_percent by apply digit_char_is_digit.
    + apply IH. simpl. by rewrite is_digit_not_percent by apply digit_char_is_digit.
Qed.

Lemma contains_dec n : contains "%" (dec n) = false.
Proof. by apply contains_dec_digits. Qed.

Lemma contains_ip_str ip : contains "%" (ip_str ip) = false.
Proof.
  destruct ip as [[[a b] c] d]. unfold ip_str.
  by rewrite !contains_app, !contains_dec.
Qed.

Lemma format_noargs_plain s : contains "%" s = false → format_noargs s = Ok s.
Proof.
  induction s as [|a s IH]; simpl; [done|].
  destruct (Ascii.eqb a "%"); [done|]. intros H. by rewrite IH.
Qed.

Ltac unfold_M :=
  unfold mbind, mret, M_bind, M_ret, result_bind, result_ret, bind, ret, lift,
    emit, get_state, put_state, except_ValueError in *; cbv beta iota.

Lemma log_message_eq self format s :
  log_message self format s =
    match format_noargs format with
    | Ok line => (s, [Print (ip_str (client_address self)) line], Ok tt)
    | Raise e => (s, [], Raise e)
    end.
Proof. unfold log_message. unfold_M. by destruct (format_noargs format). Qed.

Lemma log_message_plain self format s :
  contains "%" format = false →
  log_message self format s = (s, [Print (ip_str (client_address self)) format], Ok tt).
Proof. intros H. by rewrite log_message_eq, format_noargs_plain. Qed.

Lemma send_error_429_blocked self s :
  send_error self 429 (Some "Too Many Requests - IP Blocked") s =
    (s, [Print (ip_str (client_address self)) "ERROR 429: Too Many Requests - IP Blocked";
         Response 429 (Some "Too Many Requests - IP Blocked") (end_headers (path self))],
     Ok tt).
Proof. reflexivity. Qed.

Lemma rate_limit_check_blocked self s :
  client_address self ∈ blocked_ips s →
  rate_limit_check self s =
    (s, [Print (ip_str (client_address self)) "ERROR 429: Too Many Requests - IP Blocked";
         Response 429 (Some "Too Many Requests - IP Blocked") (end_headers (path self))],
     Ok false).
Proof.
  intros Hin. unfold rate_limit_check. unfold_M.
  rewrite bool_decide_eq_true_2 by done.
  by rewrite send_error_429_blocked.
Qed.

Lemma rate_limit_check_admit self s :
  client_address self ∉ blocked_ips s →
  (List.length (window_after self s) ≤ RATE_LIMIT_MAX_REQUESTS)%nat →
  rate_limit_check self s =
    ({| request_counts := <[client_address self := window_after self s]> (request_counts s);
        blocked_ips := blocked_ips s |}, [], Ok true).
Proof.
  intros Hin Hlen. unfold rate_limit_check. unfold_M.
  rewrite bool_decide_eq_false_2 by done. cbn [request_counts blocked_ips].
  rewrite bool_decide_eq_true_2 by (rewrite dom_insert_L; set_solver).
  cbn [request_counts blocked_ips].
  rewrite alter_insert_eq, lookup_insert_eq. cbn [default from_option id].
  fold (window_after self s).
  destruct (Nat.ltb_spec RATE_LIMIT_MAX_REQUESTS (List.length (window_after self s))); [lia|done].
Qed.

Lemma rate_limit_check_ban self s :
  client_address self ∉ blocked_ips s →
  (RATE_LIMIT_MAX_REQUESTS < List.length (window_after self s))%nat →
  rate_limit_check self s =
    ({| request_counts := <[client_address self := window_after self s]> (request_counts s);
        blocked_ips := blocked_ips s ∪ {[client_address self]} |},
     [Print (ip_str (client_address self))
        ("SECURITY: Rate limit exceeded for " +:+ ip_str (client_address self)
         +:+ " - IP blocked");
      Print (ip_str (client_address self)) "ERROR 429: Too Many Requests";
      Response 429 (Some "Too Many Requests") (end_headers (path self))],
     Ok false).
Proof.
  intros Hin Hlen. unfold rate_limit_check. unfold_M.
  rewrite bool_decide_eq_false_2 by done. cbn [request_counts blocked_ips].
  rewrite bool_decide_eq_true_2 by (rewrite dom_insert_L; set_solver).
  cbn [request_counts blocked_ips].
  rewrite alter_insert_eq, lookup_insert_eq. cbn [default from_option id].
  fold (window_after self s).
  destruct (Nat.ltb_spec RATE_LIMIT_MAX_REQUESTS (List.length (window_after self s))); [|lia].
  rewrite log_message_plain by (by rewrite !contains_app, contains_ip_str).
  reflexivity.
Qed.

(** ** The monad *)

Lemma bind_eq {A B : Type} (m : M A) (f : A → M B) s :
  (m ≫= f) s =
    match m s with
    | (s1, out1, Ok a) => (state_of (f a s1), (out1 ++ actions_of (f a s1))%list, result_of (f a s1))
    | (s1, out1, Raise e) => (s1, out1, Raise e)
    end.
Proof.
  unfold mbind, M_bind, bind, state_of, actions_of, result_of.
  destruct (m s) as [[s1 out1] [a|e]]; [|done].
  by destruct (f a s1) as [[s2 out2] r].
Qed.

Lemma preserves_ret {A : Type} (a : A) : preserves_state (mret a : M A).
Proof. by intros s. Qed.

Lemma preserves_lift {A : Type} (r : result A) : preserves_state (lift r).
Proof. by intros s. Qed.

Lemma preserves_emit a : preserves_state (emit a).
Proof. by intros s. Qed.

Lemma preserves_bind {A B : Type} (m : M A) (f : A → M B) :
  preserves_state m → (∀ a, preserves_state (f a)) → preserves_state (m ≫= f).
Proof.
  intros Hm Hf s. rewrite bind_eq. specialize (Hm s).
  destruct (m s) as [[s1 out1] [a|e]]; unfold state_of in *; simpl in *; subst; [|done].
  apply Hf.
Qed.

Lemma preserves_except {A : Type} (body handler : M A) :
  preserves_state body → preserves_state handler →
  preserves_state (except_ValueError body handler).
Proof.
  intros Hb Hh s. unfold except_ValueError. specialize (Hb s).
  destruct (body s) as [[s1 out1] [a|[]]]; unfold state_of in *; simpl in *; subst; try done.
  specialize (Hh s). by destruct (handler s) as [[s2 out2] r].
Qed.

Lemma state_of_bind {A B : Type} (m : M A) (f : A → M B) s :
  (∀ a, preserves_state (f a)) → state_of ((m ≫= f) s) = state_of (m s).
Proof.
  intros Hf. rewrite bind_eq.
  destruct (m s) as [[s1 out1] [a|e]]; [|done]. apply Hf.
Qed.

Lemma emits_ret P {A : Type} (a : A) : emits P (mret a : M A).
Proof. intros s. constructor. Qed.

Lemma emits_lift P {A : Type} (r : result A) : emits P (lift r).
Proof. intros s. constructor. Qed.

Lemma emits_emit (P : action → Prop) a : P a → emits P (emit a).
Proof. intros Ha s. by repeat constructor. Qed.

Lemma emits_bind P {A B : Type} (m : M A) (f : A → M B) :
  emits P m → (∀ a, emits P (f a)) → emits P (m ≫= f).
Proof.
  intros Hm Hf s. rewrite bind_eq. specialize (Hm s).
  destruct (m s) as [[s1 out1] [a|e]]; unfold actions_of in *; simpl in *; [|done].
  apply Forall_app. split; [done|apply Hf].
Qed.

Lemma emits_except P {A : Type} (body handler : M A) :
  emits P body → emits P handler → emits P (except_ValueError body handler).
Proof.
  intros Hb Hh s. unfold except_ValueError. specialize (Hb s).
  destruct (body s) as [[s1 out1] [a|[]]]; unfold actions_of in *; simpl in *; try done.
  specialize (Hh s1). destruct (handler s1) as [[s2 out2] r]; simpl in *.
  apply Forall_app. by split.
Qed.

Create HintDb handler discriminated.
#[export] Hint Resolve preserves_ret preserves_lift preserves_emit
  emits_ret emits_lift : handler.

Ltac step_handler :=
  first
    [ solve [auto with handler]
    | progress cbv zeta
    | apply preserves_bind; [|intros ?]
    | apply preserves_except
    | apply emits_bind; [|intros ?]
    | apply emits_except
    | apply emits_emit
    | match goal with
      | |- preserves_state (if ?b then _ else _) => destruct b
      | |- preserves_state (match ?x with _ => _ end) => destruct x
      | |- emits _ (if ?b then _ else _) => destruct b
      | |- emits _ (match ?x with _ => _ end) => destruct x
      end ].

(** ** Logging and error responses *)

Lemma preserves_log_message self format : preserves_state (log_message self format).
Proof. unfold log_message. repeat step_handler; auto with handler. Qed.

#[export] Hint Resolve preserves_log_message : handler.

Lemma preserves_send_error self code message :
  preserves_state (send_error self code message).
Proof. unfold send_error. repeat step_handler. Qed.

#[export] Hint Resolve preserves_send_error : handler.

Lemma emits_log_message P self format :
  (∀ ip line, P (Print ip line)) → emits P (log_message self format).
Proof. intros HP. unfold log_message. repeat step_handler; auto with handler. Qed.

Lemma emits_send_error P self code message :
  (∀ ip line, P (Print ip line)) →
  (∀ message', P (Response code message' (end_headers (path self)))) →
  emits P (send_error self code message).
Proof.
  intros HP HR. unfold send_error.
  repeat step_handler; auto using emits_log_message with handler.
Qed.

Lemma send_error_plain self code text s :
  contains "%" text = false → text ≠ "" →
  (400 ≤ code)%N → code ≠ 404%N → code ≠ 403%N → code ≠ 500%N →
  send_error self code (Some text) s =
    (s, [Print (ip_str (client_address self)) ("ERROR " +:+ dec code +:+ ": " +:+ text);
         Response code (Some text) (end_headers (path self))], Ok tt).
Proof.
  intros Htext Hne Hcode H404 H403 H500. unfold send_error.
  rewrite bind_eq.
  destruct (N.leb_spec 400 code); [|lia].
  destruct text as [|a text]; [done|].
  rewrite log_message_plain by (by rewrite !contains_app, contains_dec, Htext).
  destruct (N.eqb_spec code 404); [done|].
  destruct (N.eqb_spec code 403); [done|].
  destruct (N.eqb_spec code 500); [done|].
  reflexivity.
Qed.

(** ** [sanitize_headers] *)

Lemma preserves_sanitize_headers self : preserves_state (sanitize_headers self).
Proof. unfold sanitize_headers. repeat step_handler. Qed.

#[export] Hint Resolve preserves_sanitize_headers : handler.

Lemma sanitize_headers_too_large self s a cl n :
  content_length_header self = Some (String a cl) →
  int (String a cl) = Some n → MAX_CONTENT_LENGTH < n →
  sanitize_headers self s =
    (s, [Print (ip_str (client_address self)) "ERROR 413: Request entity too large";
         Response 413 (Some "Request entity too large") (end_headers (path self))],
     Ok false).
Proof.
  intros Hcl Hint Hn. unfold sanitize_headers. rewrite Hcl, Hint.
  unfold_M. destruct (Z.ltb_spec MAX_CONTENT_LENGTH n); [|lia]. reflexivity.
Qed.

Lemma sanitize_headers_invalid self s a cl :
  content_length_header self = Some (String a cl) →
  int (String a cl) = None →
  sanitize_headers self s =
    (s, [Print (ip_str (client_address self)) "ERROR 400: Invalid Content-Length";
         Response 400 (Some "Invalid Content-Length") (end_headers (path self))],
     Ok false).
Proof.
  intros Hcl Hint. unfold sanitize_headers. rewrite Hcl, Hint. reflexivity.
Qed.

Lemma sanitize_headers_user_agent self s :
  content_length_acceptable self →
  (500 < String.length (default "" (user_agent_header self)))%nat →
  sanitize_headers self s =
    (s, [Print (ip_str (client_address self)) "ERROR 400: Invalid User-Agent";
         Response 400 (Some "Invalid User-Agent") (end_headers (path self))],
     Ok false).
Proof.
  intros Hcl Hua. unfold sanitize_headers, content_length_acceptable in *.
  destruct (content_length_header self) as [[|a cl]|];
    [|destruct Hcl as (n & -> & Hn)|]; unfold_M;
    try (destruct (Z.ltb_spec MAX_CONTENT_LENGTH n); [lia|]);
    cbv beta iota;
    (destruct (Nat.ltb_spec 500 (String.length (default "" (user_agent_header self)))); [|lia]);
    reflexivity.
Qed.

Lemma sanitize_headers_pass self s :
  content_length_acceptable self →
  (String.length (default "" (user_agent_header self)) ≤ 500)%nat →
  sanitize_headers self s = (s, [], Ok true).
Proof.
  intros Hcl Hua. unfold sanitize_headers, content_length_acceptable in *.
  destruct (content_length_header self) as [[|a cl]|];
    [|destruct Hcl as (n & -> & Hn)|]; unfold_M;
    try (destruct (Z.ltb_spec MAX_CONTENT_LENGTH n); [lia|]);
    cbv beta iota;
    (destruct (Nat.ltb_spec 500 (String.length (default "" (user_agent_header self)))); [lia|]);
    reflexivity.
Qed.

(** ** Handlers and the shared state *)

Lemma preserves_super_do_GET env self : preserves_state (super_do_GET env self).
Proof. unfold super_do_GET. repeat step_handler. Qed.

#[export] Hint Resolve preserves_super_do_GET : handler.

Lemma handle_state env m self s :
  state_of (handle env m self s) = state_of (rate_limit_check self s).
Proof.
  destruct m; simpl; unfold do_GET, do_POST, do_OPTIONS;
    apply state_of_bind; intros admitted; repeat step_handler.
Qed.

(** The three ways [rate_limit_check] can go. *)
Lemma rate_limit_check_cases self s :
  let ip := client_address self in
  (ip ∈ blocked_ips s ∧ state_of (rate_limit_check self s) = s
   ∧ result_of (rate_limit_check self s) = Ok false)
  ∨ ((ip ∉ blocked_ips s)
     ∧ (List.length (window_after self s) ≤ RATE_LIMIT_MAX_REQUESTS)%nat
     ∧ state_of (rate_limit_check self s) =
         {| request_counts := <[ip := window_after self s]> (request_counts s);
            blocked_ips := blocked_ips s |}
     ∧ result_of (rate_limit_check self s) = Ok true)
  ∨ ((ip ∉ blocked_ips s)
     ∧ (RATE_LIMIT_MAX_REQUESTS < List.length (window_after self s))%nat
     ∧ state_of (rate_limit_check self s) =
         {| request_counts := <[ip := window_after self s]> (request_counts s);
            blocked_ips := blocked_ips s ∪ {[ip]} |}
     ∧ result_of (rate_limit_check self s) = Ok false).
Proof.
  intros ip. destruct (decide (ip ∈ blocked_ips s)) as [Hin|Hin].
  - left. by rewrite rate_limit_check_blocked.
  - right.
    destruct (le_lt_dec (List.length (window_after self s)) RATE_LIMIT_MAX_REQUESTS).
    + left. by rewrite rate_limit_check_admit.
    + right. by rewrite rate_limit_check_ban.
Qed.

Lemma rate_limit_check_blocked_mono self s :
  blocked_ips s ⊆ blocked_ips (state_of (rate_limit_check self s)).
Proof.
  destruct (rate_limit_check_cases self s)
    as [(_ & -> & _)|[(_ & _ & -> & _)|(_ & _ & -> & _)]]; simpl; set_solver.
Qed.

Lemma handle_blocked_mono env m self s :
  blocked_ips s ⊆ blocked_ips (state_of (handle env m self s)).
Proof. rewrite handle_state. apply rate_limit_check_blocked_mono. Qed.

Lemma run_snoc env s history m self :
  run env s (history ++ [(m, self)]) = state_of (handle env m self (run env s history)).
Proof. unfold run. by rewrite fold_left_app. Qed.

Lemma run_blocked_mono env history : ∀ s,
  blocked_ips s ⊆ blocked_ips (run env s history).
Proof.
  induction history as [|[m self] history IH]; intros s; [done|].
  simpl. etrans; [apply (handle_blocked_mono env m self)|apply IH].
Qed.

(** ** The sliding window along a history *)

Lemma filter_filter_weaken (c cutoff : Z) (l : list Z) :
  cutoff ≤ c →
  List.filter (λ t, c <? t) (List.filter (λ t, cutoff <? t) l) = List.filter (λ t, c <? t) l.
Proof.
  intros Hc. induction l as [|t l IH]; simpl; [done|].
  destruct (Z.ltb_spec cutoff t); simpl.
  - by rewrite IH.
  - destruct (Z.ltb_spec c t); [lia|done].
Qed.

Lemma times_of_snoc ip history m self :
  times_of ip (history ++ [(m, self)]) =
    (times_of ip history ++ (if bool_decide (client_address self = ip) then [now self] else []))%list.
Proof.
  unfold times_of. rewrite List.filter_app, map_app. simpl.
  by destruct (bool_decide (client_address self = ip)).
Qed.

Lemma window_invariant env history : ∀ ip c,
  ip ∉ blocked_ips (run env initial_state history) →
  Forall (λ t, t - RATE_LIMIT_WINDOW ≤ c) (times_of ip history) →
  List.filter (λ t, c <? t)
    (default [] (request_counts (run env initial_state history) !! ip)) =
  List.filter (λ t, c <? t) (times_of ip history).
Proof.
  induction history as [|[m self] history IH] using rev_ind; intros ip c Hban Htimes.
  - done.
  - rewrite run_snoc, handle_state in *. rewrite times_of_snoc in *.
    set (s := run env initial_state history) in *.
    apply Forall_app in Htimes as [Hold Hnew].
    assert (ip ∉ blocked_ips s) as Hban0.
    { intros Hin. apply Hban. by apply rate_limit_check_blocked_mono. }
    rewrite List.filter_app. rewrite <- (IH ip c Hban0 Hold).
    case_bool_decide as Hip.
    + subst ip.
      destruct (rate_limit_check_cases self s)
        as [(Hin & _)|[(_ & _ & Hs & _)|(_ & _ & Hs & _)]]; [done| |].
      * rewrite Hs. simpl. rewrite lookup_insert_eq. simpl.
        unfold window_after. rewrite List.filter_app.
        rewrite Forall_singleton in Hnew.
        by rewrite (filter_filter_weaken c _ _ Hnew).
      * rewrite Hs in Hban. simpl in Hban. set_solver.
    + simpl. rewrite app_nil_r. f_equal. f_equal.
      destruct (rate_limit_check_cases self s)
        as [(_ & -> & _)|[(_ & _ & -> & _)|(_ & _ & -> & _)]]; simpl;
        by rewrite ?lookup_insert_ne.
Qed.

Lemma filter_in_window (current_time : Z) (l : list Z) :
  Forall (λ t, t ≤ current_time) l →
  List.filter (in_window current_time) l =
  List.filter (λ t, current_time - RATE_LIMIT_WINDOW <? t) l.
Proof.
  induction 1 as [|t l Ht _ IH]; simpl; [done|].
  unfold in_window at 1. destruct (Z.leb_spec t current_time); [|lia].
  rewrite andb_true_r. by rewrite IH.
Qed.

Lemma window_after_history env history m self :
  client_address self ∉ blocked_ips (run env initial_state history) →
  Forall (λ t, t ≤ now self) (times_of (client_address self) history) →
  window_after self (run env initial_state history) =
    List.filter (in_window (now self))
      (times_of (client_address self) (history ++ [(m, self)])).
Proof.
  intros Hban Hmono. rewrite filter_in_window.
  - rewrite times_of_snoc, bool_decide_eq_true_2 by done.
    rewrite List.filter_app. simpl.
    destruct (Z.ltb_spec (now self - RATE_LIMIT_WINDOW) (now self));
      [|unfold RATE_LIMIT_WINDOW in *; lia].
    unfold window_after. f_equal.
    apply (window_invariant env); [done|].
    eapply Forall_impl; [exact Hmono|]. intros t Ht. simpl in *. lia.
  - rewrite times_of_snoc, bool_decide_eq_true_2 by done.
    apply Forall_app. split; [done|]. by apply Forall_singleton.
Qed.

(** ** Path segments *)

Lemma lstrip_cons c a s :
  lstrip c (String a s) = if Ascii.eqb a c then lstrip c s else String a s.
Proof. unfold lstrip. cbn [lstrip_chars]. by rewrite (Ascii.eqb_sym c a). Qed.

Lemma split_cons sep a s :
  split sep (String a s) =
    if Ascii.eqb a sep then "" :: split sep s
    else match split sep s with
         | [] => [String a ""]
         | x :: xs => String a x :: xs
         end.
Proof. done. Qed.

Lemma split_lstrip_in sep seg p :
  seg ≠ "" → seg ∈ split sep p → seg ∈ split sep (lstrip sep p).
Proof.
  intros Hne. induction p as [|a p IH]; [done|].
  rewrite lstrip_cons, split_cons.
  destruct (Ascii.eqb a sep) eqn:Ha; [|by rewrite split_cons, Ha].
  intros [?|Hin]%elem_of_cons; [done|]. by apply IH.
Qed.

Lemma lstrip_split_in sep seg p :
  seg ∈ split sep (lstrip sep p) → seg ∈ split sep p.
Proof.
  induction p as [|a p IH]; [done|].
  rewrite lstrip_cons, (split_cons sep a p).
  destruct (Ascii.eqb a sep) eqn:Ha; [|by rewrite split_cons, Ha].
  intros Hin. apply elem_of_cons. right. by apply IH.
Qed.

Lemma lstrip_empty_segments sep p seg :
  lstrip sep p = "" → seg ∈ split sep p → seg = "".
Proof.
  induction p as [|a p IH].
  - by intros _ ->%list_elem_of_singleton.
  - rewrite lstrip_cons, split_cons. destruct (Ascii.eqb a sep); [|done].
    intros Hp [->|Hin]%elem_of_cons; [done|]. by apply IH.
Qed.

Lemma empty_not_blocked : "" ∉ BLOCKED_PATHS.
Proof. by apply (bool_decide_unpack _). Qed.

Lemma dotdot_blocked : ".." ∈ BLOCKED_PATHS.
Proof. by apply (bool_decide_unpack _). Qed.

(** ** [is_safe_path] *)

Lemma is_safe_path_blocked_segment env path seg :
  seg ∈ split "/" path → seg ∈ BLOCKED_PATHS → is_safe_path env path = Ok false.
Proof.
  intros Hseg Hblocked.
  assert (seg ≠ "") as Hne by (intros ->; by apply empty_not_blocked).
  assert (lstrip "/" path ≠ "") as Hclean.
  { intros Hp. by apply Hne, (lstrip_empty_segments "/" path). }
  unfold is_safe_path, is_safe_path_try.
  case_bool_decide as Hroot.
  { exfalso. apply Hclean.
    apply elem_of_cons in Hroot as [->| ->%list_elem_of_singleton]; done. }
  destruct (String.eqb_spec (lstrip "/" path) ""); [done|].
  rewrite bool_decide_eq_true_2; [done|].
  exists seg. split; [done|]. by apply split_lstrip_in.
Qed.

Lemma is_safe_path_total env path :
  match is_safe_path_try env path with
  | Ok b => is_safe_path env path = Ok b
  | Raise _ => is_safe_path env path = Ok false
  end.
Proof.
  unfold is_safe_path.
  assert (is_safe_path_try env path ≠ Raise TypeError) as Hcaught.
  { unfold is_safe_path_try, mbind, result_bind, rbind, probe_result.
    destruct (bool_decide (path ∈ ["/"; ""])); [done|].
    destruct (String.eqb (lstrip "/" path) ""); [done|].
    destruct (bool_decide (set_Exists _ BLOCKED_PATHS)); [done|].
    destruct (path_exists env (lstrip "/" path)) as [[]|[]]; try done;
      destruct (path_is_file env (lstrip "/" path)) as [[]|[]]; try done;
      cbv zeta;
      repeat match goal with |- context [if ?b then _ else _] => destruct b end;
      done. }
  by destruct (is_safe_path_try env path) as [b|[]].
Qed.

Lemma is_safe_path_returns env path : ∃ b, is_safe_path env path = Ok b.
Proof.
  pose proof (is_safe_path_total env path) as H.
  destruct (is_safe_path_try env path); eauto.
Qed.

Lemma is_safe_path_probed env path :
  lstrip "/" path ≠ "" →
  (∀ seg, seg ∈ split "/" path → seg ∉ BLOCKED_PATHS) →
  is_safe_path env path =
    match path_exists env (lstrip "/" path) with
    | Fails _ => Ok false
    | Answer false => Ok true
    | Answer true =>
        match path_is_file env (lstrip "/" path) with
        | Fails _ => Ok false
        | Answer false => Ok true
        | Answer true =>
            let extension := lower (path_suffix (lstrip "/" path)) in
            Ok (String.eqb extension "" || bool_decide (extension ∈ ALLOWED_EXTENSIONS))
        end
    end.
Proof.
  intros Hclean Hsegs.
  unfold is_safe_path, is_safe_path_try.
  case_bool_decide as Hroot.
  { exfalso. apply Hclean.
    apply elem_of_cons in Hroot as [->| ->%list_elem_of_singleton]; done. }
  destruct (String.eqb_spec (lstrip "/" path) ""); [done|].
  rewrite bool_decide_eq_false_2.
  2:{ intros (seg & Hb & Hin). apply (Hsegs seg); [by apply lstrip_split_in|done]. }
  rewrite (bool_decide_eq_false_2 (".." ∈ _)).
  2:{ intros Hin. apply (Hsegs ".."); [by apply lstrip_split_in|apply dotdot_blocked]. }
  unfold mbind, result_bind, rbind, probe_result.
  destruct (path_exists env (lstrip "/" path)) as [[]|[]]; try done;
    destruct (path_is_file env (lstrip "/" path)) as [[]|[]]; try done.
  cbv zeta. destruct (String.eqb _ ""); cbn [negb andb orb]; [done|].
  by case_bool_decide.
Qed.

(** ** The header policy on every response *)

Lemma carries_policy_end_headers self_path code message :
  carries_policy self_path (Response code message (end_headers self_path)).
Proof. by exists []. Qed.

Lemma emits_policy_send_error self code message :
  emits (carries_policy (path self)) (send_error self code message).
Proof.
  apply emits_send_error; [done|]. intros. apply carries_policy_end_headers.
Qed.

Lemma emits_policy_log_message self format :
  emits (carries_policy (path self)) (log_message self format).
Proof. by apply emits_log_message. Qed.

#[export] Hint Resolve emits_policy_send_error emits_policy_log_message
  carries_policy_end_headers : handler.

Lemma emits_policy_rate_limit_check self :
  emits (carries_policy (path self)) (rate_limit_check self).
Proof.
  intros s.
  destruct (decide (client_address self ∈ blocked_ips s)) as [Hin|Hin].
  - rewrite rate_limit_check_blocked by done. repeat constructor. by exists [].
  - destruct (le_lt_dec (List.length (window_after self s)) RATE_LIMIT_MAX_REQUESTS).
    + rewrite rate_limit_check_admit by done. constructor.
    + rewrite rate_limit_check_ban by done. repeat constructor. by exists [].
Qed.

Lemma emits_policy_sanitize_headers self :
  emits (carries_policy (path self)) (sanitize_headers self).
Proof. unfold sanitize_headers. repeat step_handler. Qed.

#[export] Hint Resolve emits_policy_rate_limit_check emits_policy_sanitize_headers : handler.

Lemma emits_policy_handle env m self :
  emits (carries_policy (path self)) (handle env m self).
Proof.
  destruct m; simpl; unfold do_GET, do_POST, do_OPTIONS, super_do_GET;
    repeat step_handler;
    first [ exact I
          | apply carries_policy_end_headers
          | by eexists
          | by exists [("Content-type", "text/plain")] ].
Qed.

Lemma endswith_eq s suffix :
  endswith s suffix =
    if String.eqb s suffix then true
    else match s with
         | EmptyString => false
         | String _ s' => endswith s' suffix
         end.
Proof. by destruct s. Qed.

Lemma endswith_spec s suffix : endswith s suffix = true ↔ ∃ pre, s = pre +:+ suffix.
Proof.
  split.
  - induction s as [|a s IH]; rewrite endswith_eq.
    + destruct (String.eqb_spec "" suffix) as [<-|]; [by exists ""|done].
    + destruct (String.eqb_spec (String a s) suffix) as [<-|]; [by exists ""|].
      intros [pre ->]%IH. by exists (String a pre).
  - intros [pre ->]. induction pre as [|a pre IH]; rewrite endswith_eq.
    + by rewrite String.eqb_refl.
    + cbn [String.append]. by destruct (String.eqb _ suffix).
Qed.

Lemma cache_control_public target :
  cache_control target = "public, max-age=3600" ↔
  ∃ pre suffix, suffix ∈ CACHEABLE_SUFFIXES ∧ target = pre +:+ suffix.
Proof.
  unfold cache_control, endswith_any.
  destruct (existsb (endswith target) CACHEABLE_SUFFIXES) eqn:Hany.
  - split; [intros _|done].
    apply existsb_exists in Hany as (suffix & Hin & [pre ->]%endswith_spec).
    exists pre, suffix. by rewrite list_elem_of_In.
  - split; [done|]. intros (pre & suffix & Hin & ->).
    assert (existsb (endswith (pre +:+ suffix)) CACHEABLE_SUFFIXES = true) as Htrue.
    { apply existsb_exists. exists suffix. rewrite <- list_elem_of_In.
      split; [done|]. apply endswith_spec. by exists pre. }
    congruence.
Qed.

Lemma segments_checked path :
  forallb (λ seg, negb (bool_decide (seg ∈ BLOCKED_PATHS))) (split "/" path) = true →
  ∀ seg, seg ∈ split "/" path → seg ∉ BLOCKED_PATHS.
Proof.
  intros Hall seg Hin. rewrite forallb_forall in Hall.
  apply list_elem_of_In, Hall in Hin. apply negb_true_iff in Hin.
  by apply bool_decide_eq_false in Hin.
Qed.

Lemma rate_limit_check_denied_iff self s :
  client_address self ∉ blocked_ips s →
  result_of (rate_limit_check self s) = Ok false ↔
  (RATE_LIMIT_MAX_REQUESTS < List.length (window_after self s))%nat.
Proof.
  intros Hban.
  destruct (rate_limit_check_cases self s)
    as [(Hin & _)|[(_ & Hle & _ & ->)|(_ & Hlt & _ & ->)]]; [done| |].
  - split; [done|lia].
  - done.
Qed.

(** ** The claims

    C1.  For a client that is not blocked, [rate_limit_check] keeps the
    timestamps strictly greater than [now - RATE_LIMIT_WINDOW], appends
    [now], and stores that window; when the window is longer than
    [RATE_LIMIT_MAX_REQUESTS] the client enters [blocked_ips] and the call
    returns [False] after a 429 response, otherwise it returns [True] and
    sends nothing.  Along a history that starts from the empty state, and
    when the clock has not run backwards for that client, a client that is
    not blocked is denied exactly when more than [RATE_LIMIT_MAX_REQUESTS]
    of its requests, the current one included, lie in the window of
    [RATE_LIMIT_WINDOW] seconds that ends at [now]. *)
Theorem rate_limit_check_sliding_window :
  (∀ self s,
     client_address self ∉ blocked_ips s →
     let after := rate_limit_check self s in
     request_counts (state_of after) =
       <[client_address self := window_after self s]> (request_counts s)
     ∧ if (RATE_LIMIT_MAX_REQUESTS <? List.length (window_after self s))%nat
       then blocked_ips (state_of after) = blocked_ips s ∪ {[client_address self]}
            ∧ result_of after = Ok false
            ∧ Response 429 (Some "Too Many Requests") (end_headers (path self))
                ∈ actions_of after
       else blocked_ips (state_of after) = blocked_ips s
            ∧ result_of after = Ok true
            ∧ actions_of after = [])
  ∧ (∀ env history m self,
       client_address self ∉ blocked_ips (run env initial_state history) →
       Forall (λ t, t ≤ now self) (times_of (client_address self) history) →
       result_of (rate_limit_check self (run env initial_state history)) = Ok false ↔
       (RATE_LIMIT_MAX_REQUESTS <
        List.length (List.filter (in_window (now self))
                       (times_of (client_address self) (history ++ [(m, self)]))))%nat).
Proof.
  split.
  - intros self s Hban after. subst after.
    destruct (Nat.ltb_spec RATE_LIMIT_MAX_REQUESTS (List.length (window_after self s))).
    + rewrite rate_limit_check_ban by done. repeat split.
      apply list_elem_of_In. simpl. auto.
    + by rewrite rate_limit_check_admit.
  - intros env history m self Hban Hmono.
    rewrite rate_limit_check_denied_iff by done.
    by rewrite (window_after_history env history m).
Qed.

Lemma rate_limit_check_sliding_window_witness :
  result_of (rate_limit_check (example_request "/" 1000) initial_state) = Ok true
  ∧ (result_of (rate_limit_check (example_request "/" 1000)
                  (run example_env initial_state burst)) = Ok false ↔
     (RATE_LIMIT_MAX_REQUESTS <
      List.length (List.filter (in_window 1000)
                     (times_of (127, 0, 0, 1)%N
                        (burst ++ [(GET, example_request "/" 1000)]))))%nat).
Proof.
  split.
  - apply (proj1 rate_limit_check_sliding_window (example_request "/" 1000) initial_state).
    apply not_elem_of_empty.
  - apply (proj2 rate_limit_check_sliding_window example_env burst GET
             (example_request "/" 1000)).
    + apply (bool_decide_unpack _). vm_compute. reflexivity.
    + apply (bool_decide_unpack _). vm_compute. reflexivity.
Defined.

(** C2.  A ban is permanent: once [rate_limit_check] denies a client that
    was not blocked, every later [rate_limit_check] for that client returns
    [False], whatever requests are handled in between and whatever the
    time; no handler and no sequence of handlers removes a member of
    [blocked_ips]. *)
Theorem ban_is_permanent :
  (∀ env self s history self',
     client_address self ∉ blocked_ips s →
     result_of (rate_limit_check self s) = Ok false →
     client_address self' = client_address self →
     result_of (rate_limit_check self'
                  (run env (state_of (rate_limit_check self s)) history)) = Ok false)
  ∧ (∀ env m self s, blocked_ips s ⊆ blocked_ips (state_of (handle env m self s)))
  ∧ (∀ env s history, blocked_ips s ⊆ blocked_ips (run env s history)).
Proof.
  split; [|split].
  - intros env self s history self' Hfree Hdenied Hsame.
    assert (client_address self ∈ blocked_ips (state_of (rate_limit_check self s))) as Hin.
    { destruct (rate_limit_check_cases self s)
        as [(Hin & _)|[(_ & _ & _ & Hok)|(_ & _ & -> & _)]]; [done|congruence|].
      simpl. set_solver. }
    rewrite rate_limit_check_blocked; [done|].
    rewrite Hsame. by apply run_blocked_mono.
  - intros. apply handle_blocked_mono.
  - intros. apply run_blocked_mono.
Qed.

Lemma ban_is_permanent_witness :
  result_of (rate_limit_check (example_request "/index.html" 999999)
               (run example_env
                  (state_of (rate_limit_check (example_request "/" 1000)
                               (run example_env initial_state burst)))
                  [(GET, example_request "/style.css" 5000)])) = Ok false.
Proof.
  apply (proj1 ban_is_permanent example_env (example_request "/" 1000)
           (run example_env initial_state burst)
           [(GET, example_request "/style.css" 5000)]
           (example_request "/index.html" 999999)).
  - apply (bool_decide_unpack _). vm_compute. reflexivity.
  - vm_compute. reflexivity.
  - reflexivity.
Defined.

(** C7.  For a client in [blocked_ips], [rate_limit_check] answers 429
    at once and returns [False] with the whole state unchanged (no window
    is pruned or extended); every handler ends there with the same state
    and the same single response. *)
Theorem banned_client_untouched env m self s :
  client_address self ∈ blocked_ips s →
  let denial :=
    [Print (ip_str (client_address self)) "ERROR 429: Too Many Requests - IP Blocked";
     Response 429 (Some "Too Many Requests - IP Blocked") (end_headers (path self))] in
  rate_limit_check self s = (s, denial, Ok false)
  ∧ handle env m self s = (s, denial, Ok tt).
Proof.
  intros Hin denial. split; [by apply rate_limit_check_blocked|].
  destruct m; simpl; unfold do_GET, do_POST, do_OPTIONS;
    rewrite bind_eq, rate_limit_check_blocked by done; reflexivity.
Qed.

Lemma banned_client_untouched_witness :
  let s := state_of (rate_limit_check (example_request "/" 1000)
                       (run example_env initial_state burst)) in
  state_of (handle example_env GET (example_request "/style.css" 5000) s) = s.
Proof.
  intros s.
  destruct (banned_client_untouched example_env GET (example_request "/style.css" 5000) s)
    as [_ ->]; [|reflexivity].
  apply (bool_decide_unpack _). vm_compute. reflexivity.
Defined.

(** C3.  The path check of the decoded request path returns [False] for
    [/../etc/passwd], [/a/../../b] and [/%2e%2e/secret], whatever the
    filesystem; and every decoded path with a segment in [BLOCKED_PATHS]
    (which contains [..]) is denied. *)
Theorem traversal_paths_denied :
  (∀ env, decoded_path (example_request "/../etc/passwd" 0) ≫= is_safe_path env = Ok false)
  ∧ (∀ env, decoded_path (example_request "/a/../../b" 0) ≫= is_safe_path env = Ok false)
  ∧ (∀ env, decoded_path (example_request "/%2e%2e/secret" 0) ≫= is_safe_path env = Ok false)
  ∧ (∀ env path seg,
       seg ∈ split "/" path → seg ∈ BLOCKED_PATHS → is_safe_path env path = Ok false).
Proof.
  repeat split; intros env; try reflexivity.
  intros path seg. apply is_safe_path_blocked_segment.
Qed.

Lemma traversal_paths_denied_witness :
  is_safe_path locked_env "/static/.git/config" = Ok false.
Proof.
  apply (proj2 (proj2 (proj2 traversal_paths_denied)) locked_env "/static/.git/config" ".git").
  - apply (bool_decide_unpack _). vm_compute. reflexivity.
  - apply (bool_decide_unpack _). vm_compute. reflexivity.
Defined.

Lemma blocked_segment_dec path :
  (∃ seg, seg ∈ split "/" path ∧ seg ∈ BLOCKED_PATHS)
  ∨ (∀ seg, seg ∈ split "/" path → seg ∉ BLOCKED_PATHS).
Proof.
  destruct (decide (Exists (λ seg, seg ∈ BLOCKED_PATHS) (split "/" path))) as [H|H].
  - left. by apply Exists_exists in H.
  - right. intros seg Hseg Hblocked. apply H, Exists_exists. eauto.
Qed.

(** C4.  A path that names an existing regular file whose lower-cased
    suffix is not empty and not in [ALLOWED_EXTENSIONS] is denied; a path
    without blocked segment that names no existing file, or something that
    is not a regular file, is allowed; an existing [config.env] or
    [server.py] is denied, an existing [style.css] or [logo.png] is
    allowed. *)
Theorem extension_allowlist :
  (∀ env path,
     let clean_path := lstrip "/" path in
     let extension := lower (path_suffix clean_path) in
     path_exists env clean_path = Answer true →
     path_is_file env clean_path = Answer true →
     extension ≠ "" → extension ∉ ALLOWED_EXTENSIONS →
     is_safe_path env path = Ok false)
  ∧ (∀ env path,
       let clean_path := lstrip "/" path in
       path_exists env clean_path = Answer false
       ∨ (path_exists env clean_path = Answer true
          ∧ path_is_file env clean_path = Answer false) →
       (∀ seg, seg ∈ split "/" path → seg ∉ BLOCKED_PATHS) →
       is_safe_path env path = Ok true)
  ∧ (∀ env name,
       path_exists env name = Answer true → path_is_file env name = Answer true →
       (name = "config.env" ∨ name = "server.py" →
        is_safe_path env (String "/" name) = Ok false)
       ∧ (name = "style.css" ∨ name = "logo.png" →
          is_safe_path env (String "/" name) = Ok true)).
Proof.
  split; [|split].
  - intros env path clean_path extension Hexists Hfile Hext Hallowed.
    destruct (blocked_segment_dec path) as [(seg & Hseg & Hblocked)|Hfree].
    { by apply (is_safe_path_blocked_segment env path seg). }
    rewrite is_safe_path_probed.
    + fold clean_path. rewrite Hexists, Hfile. cbv zeta. fold extension.
      destruct (String.eqb_spec extension ""); [done|].
      by rewrite bool_decide_eq_false_2.
    + subst extension clean_path. by destruct (lstrip "/" path).
    + done.
  - intros env path clean_path Hprobe Hfree.
    destruct (String.eqb_spec clean_path "") as [Hroot|Hclean].
    + unfold is_safe_path, is_safe_path_try. fold clean_path.
      rewrite Hroot. by case_bool_decide.
    + rewrite is_safe_path_probed by done. fold clean_path.
      by destruct Hprobe as [->|[-> ->]].
  - intros env name Hexists Hfile. split.
    + intros [-> | ->]; (rewrite is_safe_path_probed;
        [change (lstrip "/" (String "/" ?n)) with n; by rewrite Hexists, Hfile
        |done
        |by apply segments_checked]).
    + intros [-> | ->]; (rewrite is_safe_path_probed;
        [change (lstrip "/" (String "/" ?n)) with n; by rewrite Hexists, Hfile
        |done
        |by apply segments_checked]).
Qed.

Lemma extension_allowlist_witness :
  is_safe_path example_env "/server.py" = Ok false
  ∧ is_safe_path example_env "/missing.py" = Ok true
  ∧ is_safe_path example_env "/config.env" = Ok false
  ∧ is_safe_path example_env "/logo.png" = Ok true.
Proof.
  split; [|split; [|split]].
  - apply (proj1 extension_allowlist example_env "/server.py"); try reflexivity.
    + discriminate.
    + apply (bool_decide_unpack _). vm_compute. reflexivity.
  - apply (proj1 (proj2 extension_allowlist) example_env "/missing.py").
    + left. reflexivity.
    + by apply segments_checked.
  - apply (proj2 (proj2 extension_allowlist) example_env "config.env");
      [reflexivity|reflexivity|by left].
  - apply (proj2 (proj2 extension_allowlist) example_env "logo.png");
      [reflexivity|reflexivity|by right].
Defined.

(** C8.  [is_safe_path] always returns a boolean: whatever the two
    filesystem probes do, no exception leaves it, and a probe that fails
    with an operating-system error or a rejected path makes the result
    [False]. *)
Theorem path_check_never_raises :
  (∀ env path, ∃ b, is_safe_path env path = Ok b)
  ∧ (∀ env path,
       match is_safe_path_try env path with
       | Ok b => is_safe_path env path = Ok b
       | Raise _ => is_safe_path env path = Ok false
       end)
  ∧ (∀ env path e,
       lstrip "/" path ≠ "" →
       path_exists env (lstrip "/" path) = Fails e
       ∨ (path_exists env (lstrip "/" path) = Answer true
          ∧ path_is_file env (lstrip "/" path) = Fails e) →
       is_safe_path env path = Ok false).
Proof.
  split; [|split].
  - apply is_safe_path_returns.
  - apply is_safe_path_total.
  - intros env path e Hclean Hfails.
    destruct (blocked_segment_dec path) as [(seg & Hseg & Hblocked)|Hfree].
    { by apply (is_safe_path_blocked_segment env path seg). }
    rewrite is_safe_path_probed; [|done|].
    + by destruct Hfails as [->|[-> ->]].
    + done.
Qed.

Lemma path_check_never_raises_witness :
  is_safe_path locked_env "/style.css" = Ok false.
Proof.
  apply (proj2 (proj2 path_check_never_raises) locked_env "/style.css" FsOSError).
  - discriminate.
  - left. reflexivity.
Defined.

(** C5, as amended.  Every response a handler sends carries the headers
    of [end_headers] for the request target: the fixed CORS, CSP,
    anti-sniffing, frame, referrer and permissions headers, then
    [Cache-Control], which is [public, max-age=3600] exactly when the raw
    request target [self.path], query string included, ends with one of
    the seven suffixes, and [no-cache, no-store, must-revalidate]
    otherwise. *)
Theorem header_policy_uniform :
  (∀ env m self s,
     Forall (carries_policy (path self)) (actions_of (handle env m self s)))
  ∧ (∀ target,
       end_headers target =
         (security_headers ++ [("Cache-Control", cache_control target)])%list)
  ∧ (∀ target,
       cache_control target = "public, max-age=3600" ↔
       ∃ pre suffix, suffix ∈ CACHEABLE_SUFFIXES ∧ target = pre +:+ suffix)
  ∧ (∀ target,
       cache_control target = "public, max-age=3600"
       ∨ cache_control target = "no-cache, no-store, must-revalidate").
Proof.
  split; [|split; [|split]].
  - intros env m self s. apply emits_policy_handle.
  - done.
  - apply cache_control_public.
  - intros target. unfold cache_control. destruct (endswith_any _ _); auto.
Qed.

(** The claim C5 as stated fails: [/style.css?v=2] requests a path of
    extension [.css] and is answered with [no-cache]. *)
Lemma cache_control_not_by_extension :
  ¬ (∀ target,
       cache_control target = "public, max-age=3600" ↔
       requested_extension target ∈ CACHEABLE_SUFFIXES).
Proof.
  intros Hclaim. destruct (Hclaim "/style.css?v=2") as [_ Hpublic].
  assert (cache_control "/style.css?v=2" = "public, max-age=3600") as Hcache.
  { apply Hpublic. apply (bool_decide_unpack _). vm_compute. reflexivity. }
  vm_compute in Hcache. discriminate.
Qed.

(** C6, as amended.  After an admitting rate-limit check, [do_GET] and
    [do_POST] answer 413 for a [Content-Length] above
    [MAX_CONTENT_LENGTH], 400 for one that is not a number, and 400 for a
    [User-Agent] longer than 500 characters, and stop there; [do_OPTIONS]
    validates no header and answers 200. *)
Theorem header_validation_get_post env m self s s1 out1 :
  rate_limit_check self s = (s1, out1, Ok true) →
  let reject (code : N) (line text : string) : server_state * list action * result unit :=
    (s1, (out1 ++ [Print (ip_str (client_address self)) line;
                   Response code (Some text) (end_headers (path self))])%list, Ok tt) in
  (m ≠ OPTIONS →
     (∀ a cl n,
        content_length_header self = Some (String a cl) →
        int (String a cl) = Some n → MAX_CONTENT_LENGTH < n →
        handle env m self s =
          reject 413%N "ERROR 413: Request entity too large" "Request entity too large")
     ∧ (∀ a cl,
          content_length_header self = Some (String a cl) →
          int (String a cl) = None →
          handle env m self s =
            reject 400%N "ERROR 400: Invalid Content-Length" "Invalid Content-Length")
     ∧ (content_length_acceptable self →
        (500 < String.length (default "" (user_agent_header self)))%nat →
        handle env m self s =
          reject 400%N "ERROR 400: Invalid User-Agent" "Invalid User-Agent"))
  ∧ (m = OPTIONS →
     handle env m self s =
       (s1, (out1 ++ [Response 200 None (end_headers (path self))])%list, Ok tt)).
Proof.
  intros Hadmit reject. split.
  - intros Hm. split; [|split].
    + intros a cl n Hcl Hint Hn.
      destruct m; [| |done]; simpl; unfold do_GET, do_POST;
        rewrite bind_eq, Hadmit; cbn [negb]; rewrite bind_eq,
          (sanitize_headers_too_large self s1 a cl n) by done; reflexivity.
    + intros a cl Hcl Hint.
      destruct m; [| |done]; simpl; unfold do_GET, do_POST;
        rewrite bind_eq, Hadmit; cbn [negb]; rewrite bind_eq,
          (sanitize_headers_invalid self s1 a cl) by done; reflexivity.
    + intros Hcl Hua.
      destruct m; [| |done]; simpl; unfold do_GET, do_POST;
        rewrite bind_eq, Hadmit; cbn [negb]; rewrite bind_eq,
          (sanitize_headers_user_agent self s1) by done; reflexivity.
  - intros ->. simpl. unfold do_OPTIONS. rewrite bind_eq, Hadmit. reflexivity.
Qed.

Lemma header_validation_get_post_witness :
  actions_of (handle example_env POST oversized_request initial_state) =
    [Print "127.0.0.1" "ERROR 413: Request entity too large";
     Response 413 (Some "Request entity too large") (end_headers "/")]
  ∧ actions_of (handle example_env OPTIONS oversized_request initial_state) =
      [Response 200 None (end_headers "/")].
Proof.
  pose proof (header_validation_get_post example_env POST oversized_request initial_state
                (state_of (rate_limit_check oversized_request initial_state)) []
                eq_refl) as [Hpost _].
  pose proof (header_validation_get_post example_env OPTIONS oversized_request initial_state
                (state_of (rate_limit_check oversized_request initial_state)) []
                eq_refl) as [_ Hoptions].
  split.
  - destruct (Hpost ltac:(discriminate)) as [Hlarge _].
    rewrite (Hlarge "2"%char "0000000" 20000000); [reflexivity|reflexivity|reflexivity|].
    unfold MAX_CONTENT_LENGTH. lia.
  - rewrite (Hoptions eq_refl). reflexivity.
Defined.

(** The claim C6 as stated fails: an admitted OPTIONS request with a
    [Content-Length] of 20000000 is answered with 200, not 413. *)
Lemma options_skips_header_validation :
  ¬ (∀ env m self s cl n,
       result_of (rate_limit_check self s) = Ok true →
       content_length_header self = Some cl →
       int cl = Some n → MAX_CONTENT_LENGTH < n →
       ∃ message headers,
         Response 413 message headers ∈ actions_of (handle env m self s)).
Proof.
  intros Hclaim.
  destruct (Hclaim example_env OPTIONS oversized_request initial_state "20000000" 20000000)
    as (message & headers & Hin); [reflexivity|reflexivity|reflexivity|
                                   unfold MAX_CONTENT_LENGTH; lia|].
  change (actions_of (handle example_env OPTIONS oversized_request initial_state))
    with [Response 200 None (end_headers "/")] in Hin.
  apply list_elem_of_singleton in Hin. discriminate.
Qed.

(** C9.  The code at a POST whose target holds a percent escape: the
    request passes the rate-limit and header checks, then
    [log_message] raises while it formats [POST /a%20b], so that no 405
    and no other response is sent. *)
Theorem post_percent_path_unanswered :
  let self := example_request "/a%20b" 1000 in
  result_of (rate_limit_check self initial_state) = Ok true
  ∧ result_of (sanitize_headers self initial_state) = Ok true
  ∧ format_noargs ("POST " +:+ path self) = Raise TypeError
  ∧ result_of (do_POST self initial_state) = Raise TypeError
  ∧ actions_of (do_POST self initial_state) = [].
Proof. vm_compute. done. Qed.

(** C10.  The code at the doubly encoded traversal path: it is decoded
    once to [/%2e%2e/secret] and judged safe by [is_safe_path], but
    [log_message] raises while it formats [GET /%2e%2e/secret], so that
    the file server is never reached and no response is sent. *)
Theorem double_encoded_traversal_unanswered :
  ∀ found regular server,
    let env := {| path_exists := λ _, Answer found;
                  path_is_file := λ _, Answer regular;
                  file_server := server |} in
    let self := example_request "/%252e%252e/secret" 1000 in
    decoded_path self = Ok "/%2e%2e/secret"
    ∧ is_safe_path env "/%2e%2e/secret" = Ok true
    ∧ format_noargs ("GET " +:+ "/%2e%2e/secret") = Raise TypeError
    ∧ result_of (do_GET env self initial_state) = Raise TypeError
    ∧ actions_of (do_GET env self initial_state) = [].
Proof. intros [] [] server; vm_compute; done. Qed.

(** * Further properties of the handlers *)

(** ** The rate limiter on reachable states *)

Lemma filter_sublist (p : Z → bool) (l : list Z) : sublist (List.filter p l) l.
Proof.
  induction l as [|t l IH]; simpl; [constructor|].
  destruct (p t); by constructor.
Qed.

Lemma window_after_sublist self s (times : list Z) :
  sublist (window_of s (client_address self)) times →
  sublist (window_after self s) (times ++ [now self])%list.
Proof.
  intros Hsub. unfold window_after. apply sublist_app; [|done].
  etrans; [apply filter_sublist|exact Hsub].
Qed.

Lemma window_after_length self s :
  (List.length (window_after self s) ≤ S (List.length (window_of s (client_address self))))%nat.
Proof.
  unfold window_after, window_of. rewrite length_app. simpl.
  pose proof (sublist_length _ _
    (filter_sublist (λ t, now self - RATE_LIMIT_WINDOW <? t)
       (default [] (request_counts s !! client_address self)))).
  lia.
Qed.

Lemma window_of_rate_limit_check self s ip :
  window_of (state_of (rate_limit_check self s)) ip =
    if bool_decide (ip = client_address self ∧ client_address self ∉ blocked_ips s)
    then window_after self s else window_of s ip.
Proof.
  unfold window_of.
  destruct (rate_limit_check_cases self s)
    as [(Hin & -> & _)|[(Hout & _ & -> & _)|(Hout & _ & -> & _)]]; simpl.
  - rewrite bool_decide_eq_false_2; [done|]. by intros [_ ?].
  - case_bool_decide as Hip.
    + destruct Hip as [-> _]. by rewrite lookup_insert_eq.
    + rewrite lookup_insert_ne; [done|]. intros <-. by apply Hip.
  - case_bool_decide as Hip.
    + destruct Hip as [-> _]. by rewrite lookup_insert_eq.
    + rewrite lookup_insert_ne; [done|]. intros <-. by apply Hip.
Qed.

Lemma blocked_rate_limit_check self s ip :
  ip ∈ blocked_ips (state_of (rate_limit_check self s)) ↔
  ip ∈ blocked_ips s
  ∨ (ip = client_address self ∧ (ip ∉ blocked_ips s)
     ∧ (RATE_LIMIT_MAX_REQUESTS < List.length (window_after self s))%nat).
Proof.
  destruct (rate_limit_check_cases self s)
    as [(Hin & -> & _)|[(Hout & Hle & -> & _)|(Hout & Hlt & -> & _)]]; simpl.
  - split; [auto|]. by intros [?|(-> & ? & _)].
  - split; [auto|]. intros [?|(_ & _ & ?)]; [done|lia].
  - rewrite elem_of_union, elem_of_singleton. split.
    + intros [?| ->]; auto.
    + intros [?|(-> & _)]; auto.
Qed.

(** What holds of every client in every state reached from the empty
    one. *)
Lemma reachable_invariant env history ip :
  let s := run env initial_state history in
  sublist (window_of s ip) (times_of ip history)
  ∧ (List.length (window_of s ip) ≤ S RATE_LIMIT_MAX_REQUESTS)%nat
  ∧ ((RATE_LIMIT_MAX_REQUESTS < List.length (window_of s ip))%nat → ip ∈ blocked_ips s)
  ∧ (ip ∈ blocked_ips s →
     (RATE_LIMIT_MAX_REQUESTS < List.length (times_of ip history))%nat).
Proof.
  induction history as [|[m self] history IH] using rev_ind; intros s.
  - subst s. unfold window_of. simpl. rewrite lookup_empty. simpl.
    repeat split; [constructor|lia|lia|set_solver].
  - subst s. rewrite run_snoc, handle_state, times_of_snoc.
    set (s := run env initial_state history) in *.
    destruct IH as (Hsub & Hlen & Hfull & Hmany).
    rewrite window_of_rate_limit_check, blocked_rate_limit_check.
    pose proof (window_after_length self s) as Hgrow.
    case_bool_decide as Hip.
    + destruct Hip as [-> Hfree].
      rewrite bool_decide_eq_true_2 by done.
      assert (List.length (window_of s (client_address self)) ≤ RATE_LIMIT_MAX_REQUESTS)%nat
        as Hroom by (destruct (le_lt_dec (List.length (window_of s (client_address self)))
                                 RATE_LIMIT_MAX_REQUESTS); [done|by apply Hfull in l]).
      pose proof (window_after_sublist self s _ Hsub) as Hsub'.
      pose proof (sublist_length _ _ Hsub') as Hlen'.
      repeat split; [done|lia|by auto|].
      intros [Hin|(_ & _ & Hlt)]; [done|lia].
    + repeat split.
      * etrans; [exact Hsub|]. by apply sublist_inserts_r.
      * done.
      * auto.
      * rewrite length_app. intros [Hin|(-> & Hfree & _)]; [apply Hmany in Hin; lia|].
        exfalso. by apply Hip.
Qed.

(** X1.  In every state reached from the empty one, the stored window of
    a client holds at most [RATE_LIMIT_MAX_REQUESTS + 1] timestamps, it
    holds more than [RATE_LIMIT_MAX_REQUESTS] exactly when the client is
    blocked, and it is a subsequence of the times of that client's
    requests. *)
Theorem window_bounded env history ip :
  let s := run env initial_state history in
  (List.length (window_of s ip) ≤ S RATE_LIMIT_MAX_REQUESTS)%nat
  ∧ ((RATE_LIMIT_MAX_REQUESTS < List.length (window_of s ip))%nat ↔ ip ∈ blocked_ips s)
  ∧ sublist (window_of s ip) (times_of ip history).
Proof.
  intros s. destruct (reachable_invariant env history ip) as (Hsub & Hlen & Hfull & Hmany).
  fold s in Hsub, Hlen, Hfull, Hmany. repeat split; try done.
  clear Hsub Hlen Hfull Hmany. subst s.
  induction history as [|[m self] history IH] using rev_ind; [set_solver|].
  rewrite run_snoc, handle_state, window_of_rate_limit_check.
  intros [Hin|(-> & Hfree & Hlt)]%blocked_rate_limit_check.
  - rewrite bool_decide_eq_false_2; [by apply IH|]. by intros [-> ?].
  - by rewrite bool_decide_eq_true_2.
Qed.

(** X2.  A client is blocked only after more than
    [RATE_LIMIT_MAX_REQUESTS] requests of its own, whatever the clock
    did. *)
Theorem ban_needs_requests env history ip :
  ip ∈ blocked_ips (run env initial_state history) →
  (RATE_LIMIT_MAX_REQUESTS < List.length (times_of ip history))%nat.
Proof. apply reachable_invariant. Qed.

Lemma ban_needs_requests_witness :
  (RATE_LIMIT_MAX_REQUESTS < List.length (times_of (127, 0, 0, 1)%N flood))%nat.
Proof.
  apply (ban_needs_requests example_env flood (127, 0, 0, 1)%N).
  apply (bool_decide_unpack _). vm_compute. reflexivity.
Defined.

(** X3.  Handling a request of one client leaves the window and the
    ban status of every other client as they were. *)
Theorem rate_limit_check_frame env m self s ip :
  ip ≠ client_address self →
  let s' := state_of (handle env m self s) in
  request_counts s' !! ip = request_counts s !! ip
  ∧ (ip ∈ blocked_ips s' ↔ ip ∈ blocked_ips s).
Proof.
  intros Hip s'. subst s'. rewrite handle_state. split.
  - destruct (rate_limit_check_cases self s)
      as [(_ & -> & _)|[(_ & _ & -> & _)|(_ & _ & -> & _)]]; simpl;
      by rewrite ?lookup_insert_ne.
  - rewrite blocked_rate_limit_check. split; [|auto].
    by intros [?|(? & _)].
Qed.

Lemma rate_limit_check_frame_witness :
  request_counts (state_of (handle example_env GET (example_request "/" 1000) initial_state))
    !! (10, 0, 0, 7)%N = None.
Proof.
  destruct (rate_limit_check_frame example_env GET (example_request "/" 1000)
              initial_state (10, 0, 0, 7)%N) as [Hsame _]; [discriminate|].
  etrans; [exact Hsame|reflexivity].
Defined.

(** X4.  A client that is not blocked and whose stored timestamps are
    all at least [RATE_LIMIT_WINDOW] old (a client never seen included) is
    admitted in silence and its window becomes the current time alone. *)
Theorem window_resets_after_quiet_period self s :
  client_address self ∉ blocked_ips s →
  Forall (λ t, t ≤ now self - RATE_LIMIT_WINDOW) (window_of s (client_address self)) →
  rate_limit_check self s =
    ({| request_counts := <[client_address self := [now self]]> (request_counts s);
        blocked_ips := blocked_ips s |}, [], Ok true).
Proof.
  intros Hfree Hold.
  assert (window_after self s = [now self]) as Hwin.
  { unfold window_after. fold (window_of s (client_address self)).
    induction Hold as [|t l Ht _ IH]; simpl; [done|].
    destruct (Z.ltb_spec (now self - RATE_LIMIT_WINDOW) t); [lia|done]. }
  rewrite rate_limit_check_admit; rewrite ?Hwin; [done|done|].
  simpl. unfold RATE_LIMIT_MAX_REQUESTS. lia.
Qed.

Lemma window_resets_after_quiet_period_witness :
  result_of (rate_limit_check (example_request "/" 1060)
               (run example_env initial_state burst)) = Ok true.
Proof.
  rewrite (window_resets_after_quiet_period (example_request "/" 1060)
             (run example_env initial_state burst)); [reflexivity| |].
  - apply (bool_decide_unpack _). vm_compute. reflexivity.
  - apply (bool_decide_unpack _). vm_compute. reflexivity.
Defined.

(** X5.  After [rate_limit_check] for a client that was not blocked,
    every timestamp of its window is younger than [RATE_LIMIT_WINDOW] and
    the last one is the current time. *)
Theorem window_fresh_after_check self s :
  client_address self ∉ blocked_ips s →
  let s' := state_of (rate_limit_check self s) in
  Forall (λ t, now self - RATE_LIMIT_WINDOW < t) (window_of s' (client_address self))
  ∧ last (window_of s' (client_address self)) = Some (now self).
Proof.
  intros Hfree s'. subst s'.
  rewrite window_of_rate_limit_check, bool_decide_eq_true_2 by done.
  unfold window_after. split.
  - apply Forall_app. split.
    + apply Forall_forall. intros t [_ Ht%Z.ltb_lt]%list_elem_of_In%filter_In. done.
    + apply Forall_singleton. unfold RATE_LIMIT_WINDOW. lia.
  - apply last_snoc.
Qed.

Lemma window_fresh_after_check_witness :
  last (window_of (state_of (rate_limit_check (example_request "/" 1030)
                               (run example_env initial_state burst)))
          (127, 0, 0, 1)%N) = Some 1030.
Proof.
  apply (window_fresh_after_check (example_request "/" 1030)
           (run example_env initial_state burst)).
  apply (bool_decide_unpack _). vm_compute. reflexivity.
Defined.

(** X6.  The state after a handler depends on the client address and on
    the time only: not on the method, the request target, the headers or
    the filesystem, and an exception later in the handler does not undo
    the bookkeeping. *)
Theorem handle_state_by_client_and_time env env' m m' self self' s :
  client_address self = client_address self' →
  now self = now self' →
  state_of (handle env m self s) = state_of (handle env' m' self' s).
Proof.
  intros Hip Hnow. rewrite !handle_state.
  assert (window_after self s = window_after self' s) as Hwin
    by (unfold window_after; by rewrite Hip, Hnow).
  destruct (rate_limit_check_cases self s)
    as [(Hin & -> & _)|[(Hout & Hle & -> & _)|(Hout & Hlt & -> & _)]].
  - rewrite (rate_limit_check_blocked self' s) by (by rewrite <- Hip). done.
  - rewrite (rate_limit_check_admit self' s) by (by rewrite <- ?Hip, <- ?Hwin).
    simpl. by rewrite Hip, Hwin.
  - rewrite (rate_limit_check_ban self' s) by (by rewrite <- ?Hip, <- ?Hwin).
    simpl. by rewrite Hip, Hwin.
Qed.

Lemma handle_state_by_client_and_time_witness :
  state_of (handle example_env POST (example_request "/a%20b" 1000) initial_state) =
  state_of (handle locked_env OPTIONS (example_request "/style.css" 1000) initial_state).
Proof.
  apply (handle_state_by_client_and_time example_env locked_env POST OPTIONS
           (example_request "/a%20b" 1000) (example_request "/style.css" 1000)
           initial_state); reflexivity.
Defined.

(** ** One response for each request *)

Lemma actions_of_triple {A : Type} s out (r : result A) : actions_of (s, out, r) = out.
Proof. done. Qed.

Lemma result_of_triple {A : Type} s out (r : result A) : result_of (s, out, r) = r.
Proof. done. Qed.

Lemma response_count_app out1 out2 :
  response_count (out1 ++ out2)%list = (response_count out1 + response_count out2)%nat.
Proof. unfold response_count. by rewrite List.filter_app, length_app. Qed.

Lemma silent_ret {A : Type} (a : A) : silent (mret a : M A).
Proof. by intros s. Qed.

Lemma silent_lift {A : Type} (r : result A) : silent (lift r).
Proof. by intros s. Qed.

Lemma silent_emit a : is_response a = false → silent (emit a).
Proof. intros Ha s. unfold response_count. simpl. by rewrite Ha. Qed.

Lemma silent_bind {A B : Type} (m : M A) (f : A → M B) :
  silent m → (∀ a, silent (f a)) → silent (m ≫= f).
Proof.
  intros Hm Hf s. rewrite bind_eq. specialize (Hm s).
  destruct (m s) as [[s1 out1] [a|e]]; unfold actions_of in *; simpl in *; [|done].
  rewrite response_count_app, Hm. apply Hf.
Qed.

Lemma silent_log_message self format : silent (log_message self format).
Proof.
  unfold log_message. apply silent_bind; [apply silent_lift|].
  intros line. by apply silent_emit.
Qed.


Lemma completes_emit a : completes (emit a).
Proof. intros s. by exists tt. Qed.

Lemma completes_bind {A B : Type} (m : M A) (f : A → M B) :
  completes m → (∀ a, completes (f a)) → completes (m ≫= f).
Proof.
  intros Hm Hf s. rewrite bind_eq. destruct (Hm s) as [a Ha].
  destruct (m s) as [[s1 out1] r]; unfold result_of in *; simpl in *; subst r.
  apply Hf.
Qed.

Lemma answers_once_response code message headers :
  answers_once (emit (Response code message headers)).
Proof. by intros s. Qed.

Lemma answers_once_after {A B : Type} (m : M A) (f : A → M B) :
  silent m → (∀ a, answers_once (f a)) → answers_once (m ≫= f).
Proof.
  intros Hm Hf s. rewrite bind_eq. specialize (Hm s).
  destruct (m s) as [[s1 out1] [a|e]]; unfold actions_of, result_of in *; simpl in *;
    [|done].
  rewrite response_count_app, Hm. apply Hf.
Qed.

Lemma answers_once_before {A B : Type} (m : M A) (f : A → M B) :
  answers_once m → (∀ a, silent (f a)) → (∀ a, completes (f a)) →
  answers_once (m ≫= f).
Proof.
  intros Hm Hsilent Hdone s. rewrite bind_eq. specialize (Hm s).
  destruct (m s) as [[s1 out1] [a|e]]; [|done].
  rewrite actions_of_triple, result_of_triple in Hm.
  rewrite actions_of_triple, result_of_triple.
  rewrite response_count_app, Hm, (Hsilent a s1).
  by destruct (Hdone a s1) as [b ->].
Qed.

Lemma answers_once_guard (m : M bool) (rest : M unit) :
  answers_unless m → answers_once rest →
  answers_once (m ≫= λ passed, if negb passed then mret tt else rest).
Proof.
  intros Hm Hrest s. rewrite bind_eq. destruct (Hm s) as (b & Hb & Hcount).
  destruct (m s) as [[s1 out1] r].
  rewrite actions_of_triple in Hcount. rewrite result_of_triple in Hb. subst r.
  cbv beta. rewrite actions_of_triple, result_of_triple, response_count_app, Hcount.
  destruct b; cbn [negb]; [apply Hrest|done].
Qed.

Lemma answers_once_send_error self code message :
  answers_once (send_error self code message).
Proof.
  unfold send_error. apply answers_once_after.
  - destruct (400 <=? code)%N; [apply silent_log_message|apply silent_ret].
  - intros _. apply answers_once_response.
Qed.

Lemma answers_unless_rate_limit_check self : answers_unless (rate_limit_check self).
Proof.
  intros s. destruct (decide (client_address self ∈ blocked_ips s)) as [Hin|Hout].
  - exists false. by rewrite rate_limit_check_blocked.
  - destruct (le_lt_dec (List.length (window_after self s)) RATE_LIMIT_MAX_REQUESTS).
    + exists true. by rewrite rate_limit_check_admit.
    + exists false. by rewrite rate_limit_check_ban.
Qed.

(** The two ways [sanitize_headers] can go. *)
Lemma sanitize_headers_cases self s :
  (content_length_acceptable self
   ∧ (String.length (default "" (user_agent_header self)) ≤ 500)%nat
   ∧ sanitize_headers self s = (s, [], Ok true))
  ∨ (¬ (content_length_acceptable self
        ∧ (String.length (default "" (user_agent_header self)) ≤ 500)%nat)
     ∧ ∃ code line text,
         (code = 413 ∨ code = 400)%N
         ∧ sanitize_headers self s =
             (s, [Print (ip_str (client_address self)) line;
                  Response code (Some text) (end_headers (path self))], Ok false)).
Proof.
  assert (content_length_acceptable self
          ∨ (∃ a cl n, content_length_header self = Some (String a cl)
                       ∧ int (String a cl) = Some n ∧ MAX_CONTENT_LENGTH < n)
          ∨ (∃ a cl, content_length_header self = Some (String a cl)
                     ∧ int (String a cl) = None)) as Hlength.
  { unfold content_length_acceptable.
    destruct (content_length_header self) as [[|a cl]|]; [by left| |by left].
    destruct (int (String a cl)) as [n|] eqn:Hint; [|right; right; eauto].
    destruct (Z.le_gt_cases n MAX_CONTENT_LENGTH); [left; eauto|right; left; eauto 6]. }
  destruct Hlength as [Hok|[(a & cl & n & Hcl & Hint & Hn)|(a & cl & Hcl & Hint)]].
  - destruct (le_lt_dec (String.length (default "" (user_agent_header self))) 500).
    + left. by rewrite sanitize_headers_pass.
    + right. split; [intros [_ ?]; lia|].
      eexists _, _, _. split; [|by apply sanitize_headers_user_agent]. by right.
  - right. split.
    + intros [Hok _]. unfold content_length_acceptable in Hok. rewrite Hcl in Hok.
      destruct Hok as (n' & Hn' & ?). rewrite Hint in Hn'. simplify_eq. lia.
    + eexists _, _, _. split; [|by apply (sanitize_headers_too_large self s a cl n)].
      by left.
  - right. split.
    + intros [Hok _]. unfold content_length_acceptable in Hok. rewrite Hcl in Hok.
      destruct Hok as (n' & Hn' & ?). congruence.
    + eexists _, _, _. split; [|by apply (sanitize_headers_invalid self s a cl)].
      by right.
Qed.

Lemma answers_unless_sanitize_headers self : answers_unless (sanitize_headers self).
Proof.
  intros s.
  destruct (sanitize_headers_cases self s)
    as [(_ & _ & ->)|(_ & code & line & text & _ & ->)]; [by exists true|by exists false].
Qed.

Lemma answers_once_super_do_GET env self : answers_once (super_do_GET env self).
Proof.
  unfold super_do_GET. destruct (file_server env (path self)).
  - apply answers_once_before; [apply answers_once_response| |].
    + intros _. by apply silent_emit.
    + intros _. apply completes_emit.
  - apply answers_once_send_error.
Qed.

Lemma answers_once_handle env m self : answers_once (handle env m self).
Proof.
  destruct m; simpl; unfold do_GET, do_POST, do_OPTIONS;
    (apply answers_once_guard; [apply answers_unless_rate_limit_check|]).
  - apply answers_once_guard; [apply answers_unless_sanitize_headers|].
    apply answers_once_after; [apply silent_lift|]. intros clean_path.
    destruct (String.eqb clean_path "/shutdown").
    + apply answers_once_after; [apply silent_log_message|]. intros _.
      apply answers_once_before; [apply answers_once_response| |]; intros _.
      * apply silent_bind; [by apply silent_emit|]. intros _. by apply silent_emit.
      * apply completes_bind; [apply completes_emit|]. intros _. apply completes_emit.
    + apply answers_once_after; [apply silent_lift|]. intros safe.
      destruct (negb safe).
      * apply answers_once_after; [apply silent_log_message|]. intros _.
        apply answers_once_after; [apply silent_log_message|]. intros _.
        apply answers_once_send_error.
      * apply answers_once_after; [apply silent_log_message|]. intros _.
        apply answers_once_super_do_GET.
  - apply answers_once_guard; [apply answers_unless_sanitize_headers|].
    apply answers_once_after; [apply silent_log_message|]. intros _.
    apply answers_once_send_error.
  - apply answers_once_response.
Qed.

(** X7.  A handler that returns has sent one response, and a handler
    that ends in an exception has sent none. *)
Theorem one_response_per_request env m self s :
  response_count (actions_of (handle env m self s)) =
    match result_of (handle env m self s) with
    | Ok _ => 1%nat
    | Raise _ => O
    end.
Proof. apply answers_once_handle. Qed.

(** X8.  [do_OPTIONS] never raises and always sends one response; it is
    the bare 200 with the policy headers exactly when the rate-limit check
    admits the client, whatever the request target and the headers. *)
Theorem options_always_answered self s :
  result_of (do_OPTIONS self s) = Ok tt
  ∧ response_count (actions_of (do_OPTIONS self s)) = 1%nat
  ∧ (result_of (rate_limit_check self s) = Ok true ↔
     actions_of (do_OPTIONS self s) = [Response 200 None (end_headers (path self))]).
Proof.
  unfold do_OPTIONS. rewrite bind_eq.
  destruct (decide (client_address self ∈ blocked_ips s)) as [Hin|Hout].
  - rewrite rate_limit_check_blocked by done. repeat split; done.
  - destruct (le_lt_dec (List.length (window_after self s)) RATE_LIMIT_MAX_REQUESTS).
    + rewrite rate_limit_check_admit by done. repeat split; done.
    + rewrite rate_limit_check_ban by done. repeat split; done.
Qed.

(** ** What the handlers send *)

Lemma emits_bind_lift P {A B : Type} (r : result A) (f : A → M B) :
  (∀ a, r = Ok a → emits P (f a)) → emits P (lift r ≫= f).
Proof.
  intros Hf s. rewrite bind_eq. unfold lift.
  destruct r as [a|e]; [|constructor].
  rewrite actions_of_triple. simpl. by apply Hf.
Qed.

Lemma emits_refusal_rate_limit_check self : emits refusal (rate_limit_check self).
Proof.
  intros s. destruct (decide (client_address self ∈ blocked_ips s)) as [Hin|Hout].
  - rewrite rate_limit_check_blocked by done. by repeat constructor.
  - destruct (le_lt_dec (List.length (window_after self s)) RATE_LIMIT_MAX_REQUESTS).
    + rewrite rate_limit_check_admit by done. constructor.
    + rewrite rate_limit_check_ban by done. by repeat constructor.
Qed.

Lemma emits_refusal_sanitize_headers self : emits refusal (sanitize_headers self).
Proof.
  intros s.
  destruct (sanitize_headers_cases self s)
    as [(_ & _ & ->)|(_ & code & line & text & Hcode & ->)]; [constructor|].
  repeat constructor. simpl. destruct Hcode as [-> | ->]; lia.
Qed.

Lemma emits_refusal_send_error self code message :
  (400 ≤ code)%N → emits refusal (send_error self code message).
Proof. intros Hcode. by apply emits_send_error. Qed.

Lemma emits_refusal_log_message self format : emits refusal (log_message self format).
Proof. by apply emits_log_message. Qed.

(** The outcome of [do_POST] once both checks have passed. *)
Lemma do_POST_checked self s s1 out1 :
  rate_limit_check self s = (s1, out1, Ok true) →
  sanitize_headers self s1 = (s1, [], Ok true) →
  do_POST self s =
    match format_noargs ("POST " +:+ path self) with
    | Ok line =>
        (s1, (out1 ++ [Print (ip_str (client_address self)) line;
                       Print (ip_str (client_address self)) "ERROR 405: Method Not Allowed";
                       Response 405 (Some "Method Not Allowed") (end_headers (path self))])%list,
         Ok tt)
    | Raise e => (s1, out1, Raise e)
    end.
Proof.
  intros Hadmit Hsane. unfold do_POST.
  rewrite bind_eq, Hadmit. cbn [negb]. rewrite bind_eq, Hsane. cbn [negb].
  rewrite bind_eq, log_message_eq.
  destruct (format_noargs ("POST " +:+ path self)) as [line|e].
  - rewrite (send_error_plain self 405 "Method Not Allowed") by done. reflexivity.
  - rewrite !actions_of_triple, !app_nil_r. reflexivity.
Qed.

(** X9.  A POST that passes both checks is answered 405 after its log
    line when the request target holds no percent sign; when formatting
    the log line raises, the exception leaves [do_POST] and nothing is
    sent. *)
Theorem post_answered_405 self s s1 out1 :
  rate_limit_check self s = (s1, out1, Ok true) →
  content_length_acceptable self →
  (String.length (default "" (user_agent_header self)) ≤ 500)%nat →
  (contains "%" (path self) = false →
   do_POST self s =
     (s1, (out1 ++ [Print (ip_str (client_address self)) ("POST " +:+ path self);
                    Print (ip_str (client_address self)) "ERROR 405: Method Not Allowed";
                    Response 405 (Some "Method Not Allowed") (end_headers (path self))])%list,
      Ok tt))
  ∧ (∀ e, format_noargs ("POST " +:+ path self) = Raise e →
          do_POST self s = (s1, out1, Raise e)).
Proof.
  intros Hadmit Hcl Hua.
  pose proof (do_POST_checked self s s1 out1 Hadmit
                (sanitize_headers_pass self s1 Hcl Hua)) as Hpost.
  split.
  - intros Hplain. rewrite Hpost, format_noargs_plain; [done|].
    by rewrite contains_app, Hplain.
  - intros e He. by rewrite Hpost, He.
Qed.

Lemma post_answered_405_witness :
  actions_of (do_POST (example_request "/shutdown" 1000) initial_state) =
    [Print "127.0.0.1" "POST /shutdown";
     Print "127.0.0.1" "ERROR 405: Method Not Allowed";
     Response 405 (Some "Method Not Allowed") (end_headers "/shutdown")].
Proof.
  destruct (post_answered_405 (example_request "/shutdown" 1000) initial_state
              (state_of (rate_limit_check (example_request "/shutdown" 1000) initial_state))
              [] eq_refl) as [Hanswer _].
  - exact I.
  - vm_compute. lia.
  - rewrite Hanswer; reflexivity.
Defined.

(** ** [do_GET] after the two checks *)

Lemma state_of_triple {A : Type} s out (r : result A) : state_of (s, out, r) = s.
Proof. done. Qed.

Lemma bind_result {A B : Type} (m : M A) (f : A → M B) s s1 out1 a :
  m s = (s1, out1, Ok a) →
  (m ≫= f) s = (state_of (f a s1), (out1 ++ actions_of (f a s1))%list, result_of (f a s1)).
Proof. intros Hm. by rewrite bind_eq, Hm. Qed.

Lemma bind_lift_ok {A B : Type} (a : A) (f : A → M B) s : (lift (Ok a) ≫= f) s = f a s.
Proof. rewrite bind_eq. unfold lift. by destruct (f a s) as [[s1 out1] r]. Qed.

Lemma bind_lift_raise {A B : Type} e (f : A → M B) s :
  (lift (Raise e) ≫= f) s = (s, [], Raise e).
Proof. by rewrite bind_eq. Qed.

Lemma do_GET_checked env self s s1 out1 :
  rate_limit_check self s = (s1, out1, Ok true) →
  sanitize_headers self s1 = (s1, [], Ok true) →
  do_GET env self s =
    match decoded_path self with
    | Raise e => (s1, out1, Raise e)
    | Ok clean_path =>
        let rest :=
          (if String.eqb clean_path "/shutdown"
           then
             log_message self "Received shutdown request from frontend.";;
             emit (Response 200 None
                     (("Content-type", "text/plain") :: end_headers (path self)));;
             emit (Write "Shutting down server...");;
             emit StartShutdownThread
           else
             safe ← lift (is_safe_path env clean_path);
             if negb safe
             then
               log_message self ("SECURITY: Blocked unsafe path access: " +:+ clean_path);;
               log_message self ("DEBUG: Original path: " +:+ path self
                                 +:+ ", Clean path: " +:+ clean_path);;
               send_error self 403 (Some "Forbidden")
             else
               log_message self ("GET " +:+ clean_path);;
               super_do_GET env self) s1 in
        (state_of rest, (out1 ++ actions_of rest)%list, result_of rest)
    end.
Proof.
  intros Hadmit Hsane. unfold do_GET.
  rewrite (bind_result _ _ _ _ _ _ Hadmit). cbn [negb].
  rewrite (bind_result _ _ _ _ _ _ Hsane). cbn [negb app].
  rewrite !state_of_triple, !actions_of_triple, !result_of_triple.
  destruct (decoded_path self) as [clean_path|e].
  - by rewrite bind_lift_ok.
  - by rewrite bind_lift_raise, app_nil_r.
Qed.

(** X10.  A GET that passes both checks and whose decoded path is
    [/shutdown] is answered 200 [text/plain] with the acknowledgement and
    starts the shutdown thread, without a look at the filesystem. *)
Theorem get_shutdown_bypasses_filter env self s s1 out1 :
  rate_limit_check self s = (s1, out1, Ok true) →
  content_length_acceptable self →
  (String.length (default "" (user_agent_header self)) ≤ 500)%nat →
  decoded_path self = Ok "/shutdown" →
  do_GET env self s =
    (s1, (out1 ++ [Print (ip_str (client_address self))
                     "Received shutdown request from frontend.";
                   Response 200 None
                     (("Content-type", "text/plain") :: end_headers (path self));
                   Write "Shutting down server...";
                   StartShutdownThread])%list, Ok tt).
Proof.
  intros Hadmit Hcl Hua Hpath.
  rewrite (do_GET_checked env self s s1 out1 Hadmit (sanitize_headers_pass self s1 Hcl Hua)).
  rewrite Hpath. reflexivity.
Qed.

Lemma get_shutdown_bypasses_filter_witness :
  actions_of (do_GET locked_env (example_request "/%73hutdown?now=1" 1000) initial_state) =
    [Print "127.0.0.1" "Received shutdown request from frontend.";
     Response 200 None (("Content-type", "text/plain") :: end_headers "/%73hutdown?now=1");
     Write "Shutting down server...";
     StartShutdownThread].
Proof.
  rewrite (get_shutdown_bypasses_filter locked_env
             (example_request "/%73hutdown?now=1" 1000) initial_state
             (state_of (rate_limit_check (example_request "/%73hutdown?now=1" 1000)
                          initial_state)) [] eq_refl).
  - reflexivity.
  - exact I.
  - vm_compute. lia.
  - reflexivity.
Defined.

(** ** Who can start the shutdown thread *)

Lemma emits_keeps_running_rate_limit_check self :
  emits keeps_running (rate_limit_check self).
Proof.
  intros s. eapply Forall_impl; [apply emits_refusal_rate_limit_check|].
  by intros [].
Qed.

Lemma emits_keeps_running_sanitize_headers self :
  emits keeps_running (sanitize_headers self).
Proof.
  intros s. eapply Forall_impl; [apply emits_refusal_sanitize_headers|].
  by intros [].
Qed.

Lemma emits_keeps_running_log_message self format :
  emits keeps_running (log_message self format).
Proof. by apply emits_log_message. Qed.

Lemma emits_keeps_running_send_error self code message :
  emits keeps_running (send_error self code message).
Proof. by apply emits_send_error. Qed.

#[local] Hint Resolve emits_keeps_running_rate_limit_check
  emits_keeps_running_sanitize_headers emits_keeps_running_log_message
  emits_keeps_running_send_error : handler.

Lemma emits_keeps_running_handle env m self :
  (m ≠ GET) ∨ (decoded_path self ≠ Ok "/shutdown") →
  emits keeps_running (handle env m self).
Proof.
  intros Hother.
  destruct m; simpl; unfold do_GET, do_POST, do_OPTIONS, super_do_GET.
  - destruct Hother as [?|Hpath]; [done|].
    apply emits_bind; [auto with handler|]. intros admitted.
    destruct (negb admitted); [auto with handler|].
    apply emits_bind; [auto with handler|]. intros sane.
    destruct (negb sane); [auto with handler|].
    apply emits_bind_lift. intros clean_path Hclean.
    destruct (String.eqb_spec clean_path "/shutdown") as [->|_]; [done|].
    repeat step_handler; done.
  - repeat step_handler; done.
  - repeat step_handler; done.
Qed.

Lemma handle_keeps_running env m self s :
  (m ≠ GET) ∨ (decoded_path self ≠ Ok "/shutdown") →
  StartShutdownThread ∉ actions_of (handle env m self s).
Proof.
  intros Hother Hin.
  pose proof (emits_keeps_running_handle env m self Hother s) as Hall.
  rewrite Forall_forall in Hall. by apply Hall in Hin.
Qed.

(** X11.  The shutdown thread is started only by a GET whose decoded
    path is [/shutdown], from a client that is not blocked and is admitted,
    with acceptable [Content-Length] and [User-Agent]. *)
Theorem shutdown_only_by_get env m self s :
  StartShutdownThread ∈ actions_of (handle env m self s) →
  m = GET
  ∧ decoded_path self = Ok "/shutdown"
  ∧ (client_address self ∉ blocked_ips s)
  ∧ result_of (rate_limit_check self s) = Ok true
  ∧ content_length_acceptable self
  ∧ (String.length (default "" (user_agent_header self)) ≤ 500)%nat.
Proof.
  intros Hin.
  assert (m = GET ∧ decoded_path self = Ok "/shutdown") as [-> Hpath].
  { destruct m; [split; [done|]| |].
    - destruct (decoded_path self) as [clean_path|e] eqn:Hpath.
      + destruct (String.eqb_spec clean_path "/shutdown") as [->|Hne]; [done|].
        exfalso. revert Hin. apply handle_keeps_running. right. congruence.
      + exfalso. revert Hin. apply handle_keeps_running. right. congruence.
    - exfalso. revert Hin. apply handle_keeps_running. by left.
    - exfalso. revert Hin. apply handle_keeps_running. by left. }
  split; [done|]. split; [done|].
  destruct (rate_limit_check_cases self s)
    as [(Hblocked & _)|[(Hfree & Hroom & _)|(Hfree & Hfull & _)]].
  - exfalso. simpl in Hin. unfold do_GET in Hin.
    rewrite (bind_result _ _ _ _ _ _ (rate_limit_check_blocked self s Hblocked)) in Hin.
    cbn [negb] in Hin. rewrite !actions_of_triple in Hin. simpl in Hin.
    apply elem_of_cons in Hin as [?|Hin]; [done|].
    apply elem_of_cons in Hin as [?|Hin]; [done|]. by apply elem_of_nil in Hin.
  - pose proof (rate_limit_check_admit self s Hfree Hroom) as Hadmit.
    split; [done|]. split; [by rewrite Hadmit|].
    destruct (sanitize_headers_cases self
                {| request_counts := <[client_address self := window_after self s]>
                                       (request_counts s);
                   blocked_ips := blocked_ips s |})
      as [(Hcl & Hua & _)|(_ & code & line & text & _ & Hsane)]; [done|].
    exfalso. simpl in Hin. unfold do_GET in Hin.
    rewrite (bind_result _ _ _ _ _ _ Hadmit) in Hin. cbn [negb] in Hin.
    rewrite (bind_result _ _ _ _ _ _ Hsane) in Hin. cbn [negb] in Hin.
    rewrite !actions_of_triple in Hin. simpl in Hin.
    apply elem_of_cons in Hin as [?|Hin]; [done|].
    apply elem_of_cons in Hin as [?|Hin]; [done|]. by apply elem_of_nil in Hin.
  - exfalso. simpl in Hin. unfold do_GET in Hin.
    rewrite (bind_result _ _ _ _ _ _ (rate_limit_check_ban self s Hfree Hfull)) in Hin.
    cbn [negb] in Hin. rewrite !actions_of_triple in Hin. simpl in Hin.
    repeat (apply elem_of_cons in Hin as [?|Hin]; [done|]). by apply elem_of_nil in Hin.
Qed.

Lemma shutdown_only_by_get_witness :
  decoded_path (example_request "/shutdown" 1000) = Ok "/shutdown".
Proof.
  apply (shutdown_only_by_get locked_env GET (example_request "/shutdown" 1000)
           initial_state).
  assert (actions_of (handle locked_env GET (example_request "/shutdown" 1000)
                        initial_state) =
            [Print "127.0.0.1" "Received shutdown request from frontend.";
             Response 200 None (("Content-type", "text/plain") :: end_headers "/shutdown");
             Write "Shutting down server...";
             StartShutdownThread]) as -> by reflexivity.
  rewrite !elem_of_cons. auto.
Defined.

(** X12.  A GET whose decoded path has a blocked segment sends only
    console lines and error responses: no file content and no shutdown,
    whatever the filesystem and the file server. *)
Theorem blocked_segment_never_served env self s clean_path seg :
  decoded_path self = Ok clean_path →
  seg ∈ split "/" clean_path → seg ∈ BLOCKED_PATHS →
  Forall refusal (actions_of (do_GET env self s)).
Proof.
  intros Hpath Hseg Hblocked. revert s.
  change (emits refusal (do_GET env self)). unfold do_GET.
  apply emits_bind; [apply emits_refusal_rate_limit_check|]. intros admitted.
  destruct (negb admitted); [apply emits_ret|].
  apply emits_bind; [apply emits_refusal_sanitize_headers|]. intros sane.
  destruct (negb sane); [apply emits_ret|].
  apply emits_bind_lift. intros clean_path' Hclean.
  rewrite Hpath in Hclean. injection Hclean as <-.
  destruct (String.eqb_spec clean_path "/shutdown") as [->|_].
  { exfalso. apply elem_of_cons in Hseg as [->|Hseg]; [by apply empty_not_blocked|].
    apply list_elem_of_singleton in Hseg as ->. revert Hblocked.
    by apply (bool_decide_eq_false_1 _). }
  rewrite (is_safe_path_blocked_segment env clean_path seg) by done.
  apply emits_bind_lift. intros safe [= <-]. cbn [negb].
  apply emits_bind; [apply emits_refusal_log_message|]. intros _.
  apply emits_bind; [apply emits_refusal_log_message|]. intros _.
  apply emits_refusal_send_error. lia.
Qed.

Lemma blocked_segment_never_served_witness :
  Forall refusal
    (actions_of (do_GET serving_env (example_request "/static/../style.css" 1000)
                   initial_state)).
Proof.
  apply (blocked_segment_never_served serving_env
           (example_request "/static/../style.css" 1000) initial_state
           "/static/../style.css" "..").
  - reflexivity.
  - apply (bool_decide_unpack _). vm_compute. reflexivity.
  - apply (bool_decide_unpack _). vm_compute. reflexivity.
Defined.

(** X13.  A GET that passes both checks, whose decoded path is safe,
    is not [/shutdown] and holds no percent sign, relays the file server's
    reply: one log line, the status with the server's headers followed by
    the policy headers, then the body. *)
Theorem get_served env self s s1 out1 clean_path code headers body :
  rate_limit_check self s = (s1, out1, Ok true) →
  content_length_acceptable self →
  (String.length (default "" (user_agent_header self)) ≤ 500)%nat →
  decoded_path self = Ok clean_path →
  clean_path ≠ "/shutdown" →
  is_safe_path env clean_path = Ok true →
  contains "%" clean_path = false →
  file_server env (path self) = Success code headers body →
  do_GET env self s =
    (s1, (out1 ++ [Print (ip_str (client_address self)) ("GET " +:+ clean_path);
                   Response code None (headers ++ end_headers (path self))%list;
                   Write body])%list, Ok tt).
Proof.
  intros Hadmit Hcl Hua Hpath Hother Hsafe Hplain Hserver.
  rewrite (do_GET_checked env self s s1 out1 Hadmit (sanitize_headers_pass self s1 Hcl Hua)).
  rewrite Hpath. destruct (String.eqb_spec clean_path "/shutdown"); [done|].
  rewrite Hsafe. cbv zeta. rewrite bind_lift_ok. cbn [negb].
  rewrite (bind_result _ _ _ _ _ _
             (log_message_plain self ("GET " +:+ clean_path) s1
                ltac:(by rewrite contains_app, Hplain))).
  unfold super_do_GET. rewrite Hserver. reflexivity.
Qed.

Lemma get_served_witness :
  actions_of (do_GET serving_env (example_request "/style.css" 1000) initial_state) =
    [Print "127.0.0.1" "GET /style.css";
     Response 200 None
       (("Content-type", "text/css") :: end_headers "/style.css");
     Write "body { margin: 0 }"].
Proof.
  rewrite (get_served serving_env (example_request "/style.css" 1000) initial_state
             (state_of (rate_limit_check (example_request "/style.css" 1000) initial_state))
             [] "/style.css" 200 [("Content-type", "text/css")] "body { margin: 0 }"
             eq_refl).
  - reflexivity.
  - exact I.
  - vm_compute. lia.
  - reflexivity.
  - discriminate.
  - reflexivity.
  - reflexivity.
  - reflexivity.
Defined.

(** X14.  A GET that passes both checks and whose decoded path is
    unsafe is answered 403 [Forbidden] after two security log lines when
    the request target holds no percent sign; when formatting the second
    log line raises, the first line is all that is written and no response
    is sent. *)
Theorem get_forbidden env self s s1 out1 clean_path :
  rate_limit_check self s = (s1, out1, Ok true) →
  content_length_acceptable self →
  (String.length (default "" (user_agent_header self)) ≤ 500)%nat →
  decoded_path self = Ok clean_path →
  clean_path ≠ "/shutdown" →
  is_safe_path env clean_path = Ok false →
  contains "%" clean_path = false →
  (contains "%" (path self) = false →
   do_GET env self s =
     (s1, (out1 ++ [Print (ip_str (client_address self))
                      ("SECURITY: Blocked unsafe path access: " +:+ clean_path);
                    Print (ip_str (client_address self))
                      ("DEBUG: Original path: " +:+ path self +:+ ", Clean path: "
                       +:+ clean_path);
                    Print (ip_str (client_address self)) "ERROR 403: Forbidden";
                    Response 403 (Some "Forbidden") (end_headers (path self))])%list,
      Ok tt))
  ∧ (∀ e, format_noargs ("DEBUG: Original path: " +:+ path self +:+ ", Clean path: "
                         +:+ clean_path) = Raise e →
          do_GET env self s =
            (s1, (out1 ++ [Print (ip_str (client_address self))
                             ("SECURITY: Blocked unsafe path access: " +:+ clean_path)])%list,
             Raise e)).
Proof.
  intros Hadmit Hcl Hua Hpath Hother Hsafe Hplain.
  rewrite (do_GET_checked env self s s1 out1 Hadmit (sanitize_headers_pass self s1 Hcl Hua)).
  rewrite Hpath. destruct (String.eqb_spec clean_path "/shutdown"); [done|].
  rewrite Hsafe. cbv zeta. rewrite bind_lift_ok. cbn [negb].
  rewrite (bind_result _ _ _ _ _ _
             (log_message_plain self ("SECURITY: Blocked unsafe path access: " +:+ clean_path)
                s1 ltac:(by rewrite contains_app, Hplain))).
  split.
  - intros Hraw.
    rewrite (bind_result _ _ _ _ _ _
               (log_message_plain self
                  ("DEBUG: Original path: " +:+ path self +:+ ", Clean path: " +:+ clean_path)
                  s1 ltac:(by rewrite !contains_app, Hraw, Hplain))).
    reflexivity.
  - intros e He. rewrite bind_eq, log_message_eq, He. reflexivity.
Qed.

Lemma get_forbidden_witness :
  result_of (do_GET example_env (example_request "/server.py" 1000) initial_state) = Ok tt
  ∧ result_of (do_GET example_env (example_request "/..%2fserver.py" 1000) initial_state)
    = Raise TypeError.
Proof.
  split.
  - destruct (get_forbidden example_env (example_request "/server.py" 1000) initial_state
                (state_of (rate_limit_check (example_request "/server.py" 1000)
                             initial_state))
                [] "/server.py" eq_refl) as [Hanswer _];
      [exact I|vm_compute; lia|reflexivity|discriminate|reflexivity|reflexivity|].
    rewrite Hanswer; reflexivity.
  - destruct (get_forbidden example_env (example_request "/..%2fserver.py" 1000)
                initial_state
                (state_of (rate_limit_check (example_request "/..%2fserver.py" 1000)
                             initial_state))
                [] "/../server.py" eq_refl) as [_ Hcrash];
      [exact I|vm_compute; lia|reflexivity|discriminate|reflexivity|reflexivity|].
    rewrite (Hcrash TypeError); reflexivity.
Defined.

(** ** Request targets without a percent sign *)


















(** ** The path check, case by case *)

Lemma is_safe_path_root env path : lstrip "/" path = "" → is_safe_path env path = Ok true.
Proof.
  intros Hroot. unfold is_safe_path, is_safe_path_try. rewrite Hroot.
  by case_bool_decide.
Qed.

(** X16.  [is_safe_path] returns [True] exactly for a path of slashes
    only, or for a path without blocked segment that names no existing
    entry, or an entry that is not a regular file, or a regular file whose
    lower-cased suffix is empty or in [ALLOWED_EXTENSIONS]. *)
Theorem is_safe_path_spec env path :
  let clean_path := lstrip "/" path in
  let extension := lower (path_suffix clean_path) in
  is_safe_path env path = Ok true ↔
  clean_path = ""
  ∨ ((∀ seg, seg ∈ split "/" path → seg ∉ BLOCKED_PATHS)
     ∧ (path_exists env clean_path = Answer false
        ∨ (path_exists env clean_path = Answer true
           ∧ (path_is_file env clean_path = Answer false
              ∨ (path_is_file env clean_path = Answer true
                 ∧ (extension = "" ∨ extension ∈ ALLOWED_EXTENSIONS)))))).
Proof.
  intros clean_path extension.
  destruct (String.eqb_spec clean_path "") as [Hroot|Hclean].
  { rewrite is_safe_path_root by done. split; auto. }
  destruct (blocked_segment_dec path) as [(seg & Hseg & Hblocked)|Hfree].
  { rewrite (is_safe_path_blocked_segment env path seg) by done.
    split; [done|]. intros [?|[Hall _]]; [done|]. by destruct (Hall seg). }
  rewrite is_safe_path_probed by done. fold clean_path. cbv zeta. fold extension.
  destruct (path_exists env clean_path) as [[]|e];
    [destruct (path_is_file env clean_path) as [[]|e']| |].
  - destruct (String.eqb_spec extension "") as [Hext|Hext]; cbn [orb].
    + split; [|done]. intros _. right. split; [done|]. right. split; [done|].
      right. split; [done|]. by left.
    + case_bool_decide as Hallowed.
      * split; [|done]. intros _. right. split; [done|]. right. split; [done|].
        right. split; [done|]. by right.
      * split; [done|].
        intros [?|[_ [?|[_ [?|[_ [?|?]]]]]]]; done.
  - split; [|done]. intros _. right. split; [done|]. right. split; [done|]. by left.
  - split; [done|]. intros [?|[_ [?|[_ [?|[? _]]]]]]; done.
  - split; [|done]. intros _. right. split; [done|]. by left.
  - split; [done|]. intros [?|[_ [?|[? _]]]]; done.
Qed.

(** X17.  [sanitize_headers] never raises and never changes the state;
    it returns [True], in silence, exactly when the [Content-Length] is
    absent, empty or a number not above the limit and the [User-Agent] has
    at most 500 characters, and otherwise sends one error response. *)
Theorem sanitize_headers_spec self s :
  state_of (sanitize_headers self s) = s
  ∧ ∃ passed,
      result_of (sanitize_headers self s) = Ok passed
      ∧ (passed = true ↔
         content_length_acceptable self
         ∧ (String.length (default "" (user_agent_header self)) ≤ 500)%nat)
      ∧ response_count (actions_of (sanitize_headers self s)) =
          (if passed then O else 1%nat)
      ∧ Forall refusal (actions_of (sanitize_headers self s)).
Proof.
  split; [apply preserves_sanitize_headers|].
  pose proof (emits_refusal_sanitize_headers self s) as Hrefusal.
  destruct (sanitize_headers_cases self s)
    as [(Hcl & Hua & Hsane)|(Hbad & code & line & text & _ & Hsane)];
    rewrite Hsane in *.
  - exists true. repeat split; done.
  - exists false. repeat split; done.
Qed.

(** ** Reason phrases *)

Lemma emits_generic_send_error self code message :
  emits generic_message (send_error self code message).
Proof.
  unfold send_error. apply emits_bind.
  - destruct (400 <=? code)%N; [by apply emits_log_message|apply emits_ret].
  - intros _. apply emits_emit. unfold generic_message.
    destruct (N.eqb_spec code 404) as [->|H404]; [repeat split; by auto|].
    destruct (N.eqb_spec code 403) as [->|H403]; [repeat split; by auto|].
    destruct (N.eqb_spec code 500) as [->|H500]; [repeat split; by auto|].
    repeat split; done.
Qed.

Lemma emits_generic_handle env m self : emits generic_message (handle env m self).
Proof.
  assert (emits generic_message (rate_limit_check self)) as Hrate.
  { intros s. destruct (decide (client_address self ∈ blocked_ips s)) as [Hin|Hout].
    - rewrite rate_limit_check_blocked by done. by repeat constructor.
    - destruct (le_lt_dec (List.length (window_after self s)) RATE_LIMIT_MAX_REQUESTS).
      + rewrite rate_limit_check_admit by done. constructor.
      + rewrite rate_limit_check_ban by done. by repeat constructor. }
  assert (emits generic_message (sanitize_headers self)) as Hsane.
  { intros s.
    destruct (sanitize_headers_cases self s)
      as [(_ & _ & ->)|(_ & code & line & text & [-> | ->] & ->)];
      by repeat constructor. }
  destruct m; simpl; unfold do_GET, do_POST, do_OPTIONS, super_do_GET;
    (apply emits_bind; [exact Hrate|]); intros admitted;
    (destruct (negb admitted); [apply emits_ret|]).
  - apply emits_bind; [exact Hsane|]. intros sane.
    destruct (negb sane); [apply emits_ret|].
    apply emits_bind; [apply emits_lift|]. intros clean_path.
    destruct (String.eqb clean_path "/shutdown").
    + apply emits_bind; [by apply emits_log_message|]. intros _.
      apply emits_bind; [by apply emits_emit|]. intros _.
      apply emits_bind; [by apply emits_emit|intros _; by apply emits_emit].
    + apply emits_bind; [apply emits_lift|]. intros safe. destruct (negb safe).
      * apply emits_bind; [by apply emits_log_message|]. intros _.
        apply emits_bind; [by apply emits_log_message|]. intros _.
        apply emits_generic_send_error.
      * apply emits_bind; [by apply emits_log_message|]. intros _.
        destruct (file_server env (path self)).
        -- apply emits_bind; [apply emits_emit|intros _; by apply emits_emit].
           repeat split; auto.
        -- apply emits_generic_send_error.
  - apply emits_bind; [exact Hsane|]. intros sane.
    destruct (negb sane); [apply emits_ret|].
    apply emits_bind; [by apply emits_log_message|]. intros _.
    apply emits_generic_send_error.
  - by apply emits_emit.
Qed.

(** X18.  Every response with status 404, 403 or 500 carries the fixed
    reason phrase of that status (or none), whatever message the file
    server gave. *)
Theorem error_messages_generic env m self s code message headers :
  Response code message headers ∈ actions_of (handle env m self s) →
  (code = 404%N → message = None ∨ message = Some "Not Found")
  ∧ (code = 403%N → message = None ∨ message = Some "Forbidden")
  ∧ (code = 500%N → message = None ∨ message = Some "Internal Server Error").
Proof.
  intros Hin. pose proof (emits_generic_handle env m self s) as Hall.
  rewrite Forall_forall in Hall. by apply Hall in Hin.
Qed.

Lemma error_messages_generic_witness :
  Some "Not Found" = None ∨ Some "Not Found" = Some "Not Found".
Proof.
  apply (error_messages_generic example_env GET (example_request "/missing.html" 1000)
           initial_state 404 (Some "Not Found") (end_headers "/missing.html")).
  - assert (actions_of (handle example_env GET (example_request "/missing.html" 1000)
                          initial_state) =
              [Print "127.0.0.1" "GET /missing.html";
               Print "127.0.0.1" "ERROR 404: File not found";
               Response 404 (Some "Not Found") (end_headers "/missing.html")]) as ->
      by reflexivity.
    rewrite !elem_of_cons. auto.
  - reflexivity.
Defined.
